(** * react-express-app: the Express data service and the Next.js page

    A shallow embedding of [server/index.js] and [client/pages/index.tsx]
    (both revisions of the page component), followed by the properties of
    the origin policy, of the greeting endpoint and of the page's fetch
    life cycle.

    JavaScript strings are modelled by [string]; a character stands for one
    code unit in the range 0-255, which covers every origin, header and JSON
    text the program handles. *)

From Stdlib Require Import String Ascii List Bool Arith Lia.
From Stdlib Require Import DecimalString.
Import ListNotations.

Set Warnings "-register-all".

Local Open Scope list_scope.
Local Open Scope string_scope.

(* ================================================================== *)
(** ** JavaScript string primitives used by the server *)

Module JsString.

(** [Boolean(s)] for a string: every string but the empty one is truthy. *)
Definition truthy (s : string) : bool := negb (s =? "").

(** Truthiness of a value that is either [undefined]/[null] or a string. *)
Definition opt_truthy (v : option string) : bool :=
  match v with
  | Some s => truthy s
  | None => false
  end.

(** The characters [String.prototype.trim] strips (WhiteSpace and
    LineTerminator), within the code unit range of the model: TAB, LF, VT,
    FF, CR, SP and NBSP. *)
Definition is_white_space (c : ascii) : bool :=
  let n := nat_of_ascii c in
  ((9 <=? n)%nat && (n <=? 13)%nat) || (n =? 32)%nat || (n =? 160)%nat.

Fixpoint trimStart (s : string) : string :=
  match s with
  | String c rest => if is_white_space c then trimStart rest else s
  | EmptyString => EmptyString
  end.

Fixpoint trimEnd (s : string) : string :=
  match s with
  | EmptyString => EmptyString
  | String c rest =>
      match trimEnd rest with
      | EmptyString => if is_white_space c then EmptyString else String c EmptyString
      | kept => String c kept
      end
  end.

Definition trim (s : string) : string := trimEnd (trimStart s).

(** [s.split(sep)] for a one-character separator: always at least one
    piece, the empty string splits into one empty piece. *)
Fixpoint split (sep : ascii) (s : string) : list string :=
  match s with
  | EmptyString => [EmptyString]
  | String c rest =>
      if Ascii.eqb c sep then EmptyString :: split sep rest
      else match split sep rest with
           | piece :: pieces => String c piece :: pieces
           | [] => [String c EmptyString]
           end
  end.

(** [pieces.join(sep)]. *)
Fixpoint join (sep : ascii) (pieces : list string) : string :=
  match pieces with
  | [] => EmptyString
  | [p] => p
  | p :: rest => p ++ String sep (join sep rest)
  end.

(** [list.includes(x)] on strings: strict, case-sensitive equality. *)
Definition includes (l : list string) (x : string) : bool :=
  existsb (String.eqb x) l.

(** Every character of [s] is trimmable white space. *)
Fixpoint all_white (s : string) : bool :=
  match s with
  | EmptyString => true
  | String c rest => is_white_space c && all_white rest
  end.

(** [c] occurs in [s]. *)
Fixpoint occurs (c : ascii) (s : string) : bool :=
  match s with
  | EmptyString => false
  | String d rest => Ascii.eqb d c || occurs c rest
  end.

(** First and last character of a string, when it has one. *)
Definition first_char (s : string) : option ascii :=
  match s with
  | String c _ => Some c
  | EmptyString => None
  end.

Fixpoint last_char (s : string) : option ascii :=
  match s with
  | EmptyString => None
  | String c EmptyString => Some c
  | String _ rest => last_char rest
  end.

Definition is_white_opt (c : option ascii) : bool :=
  match c with
  | Some a => is_white_space a
  | None => false
  end.

(** [sub] occurs in [s] as a contiguous run. *)
Definition contains (sub s : string) : Prop :=
  exists before after, s = before ++ sub ++ after.

(** Decimal rendering of a number, as a template literal prints it. *)
Definition decimal (n : nat) : string :=
  NilEmpty.string_of_uint (Nat.to_uint n).

End JsString.

(* ================================================================== *)
(** ** JSON values and [JSON.stringify] *)

Module Json.

(** A JSON value as [JSON.parse] and [response.json()] produce it, and as
    an object literal of the server denotes it. A number carries its
    literal text; an object lists its members in insertion order. *)
Inductive JSON : Type :=
| JNull
| JBool (b : bool)
| JNumber (literal : string)
| JString (s : string)
| JArray (items : list JSON)
| JObject (members : list (string * JSON)).

Definition dquote : string := String "034"%char EmptyString.
Definition backslash : string := String "092"%char EmptyString.

Definition hex_digit (n : nat) : ascii :=
  if (n <? 10)%nat then ascii_of_nat (48 + n) else ascii_of_nat (87 + n).

(** One character of a quoted JSON string (QuoteJSONString). *)
Definition escape_char (c : ascii) : string :=
  let n := nat_of_ascii c in
  if (n =? 34)%nat then backslash ++ dquote
  else if (n =? 92)%nat then backslash ++ backslash
  else if (n =? 8)%nat then backslash ++ "b"
  else if (n =? 9)%nat then backslash ++ "t"
  else if (n =? 10)%nat then backslash ++ "n"
  else if (n =? 12)%nat then backslash ++ "f"
  else if (n =? 13)%nat then backslash ++ "r"
  else if (n <? 32)%nat then
    backslash ++ "u00" ++ String (hex_digit (n / 16)) (String (hex_digit (n mod 16)) "")
  else String c EmptyString.

Fixpoint escape (s : string) : string :=
  match s with
  | EmptyString => EmptyString
  | String c rest => escape_char c ++ escape rest
  end.

Definition quote (s : string) : string := dquote ++ escape s ++ dquote.

(** [JSON.stringify(value)] without indentation. *)
Fixpoint stringify (j : JSON) : string :=
  match j with
  | JNull => "null"
  | JBool true => "true"
  | JBool false => "false"
  | JNumber literal => literal
  | JString s => quote s
  | JArray items =>
      "[" ++
      (fix elements (l : list JSON) : string :=
         match l with
         | [] => ""
         | x :: rest =>
             stringify x ++
             match rest with
             | [] => ""
             | _ :: _ => "," ++ elements rest
             end
         end) items ++ "]"
  | JObject members =>
      "{" ++
      (fix properties (l : list (string * JSON)) : string :=
         match l with
         | [] => ""
         | (k, v) :: rest =>
             quote k ++ ":" ++ stringify v ++
             match rest with
             | [] => ""
             | _ :: _ => "," ++ properties rest
             end
         end) members ++ "}"
  end.

(** The value bound to [key] among an object's members; a later member
    with the same key replaces an earlier one, as in [JSON.parse]. *)
Fixpoint member (key : string) (members : list (string * JSON)) : option JSON :=
  match members with
  | [] => None
  | (k, v) :: rest =>
      match member key rest with
      | Some later => Some later
      | None => if k =? key then Some v else None
      end
  end.

(** Writes a JSON text with single quotes standing for double quotes, so
    that expected bodies can be given literally. *)
Fixpoint text (s : string) : string :=
  match s with
  | EmptyString => EmptyString
  | String c rest =>
      String (if Ascii.eqb c "'"%char then "034"%char else c) (text rest)
  end.

End Json.

(* ================================================================== *)
(** ** The data service: [server/index.js] *)

Module Server.
Import JsString Json.

(** [allowedOrigins], computed once at start-up from
    [process.env.CLIENT_URL] ([None] is an unset variable); [None] is the
    source's [null]. *)
Definition allowedOrigins (clientUrlEnv : option string) : option (list string) :=
  match clientUrlEnv with
  | Some s =>
      if truthy s && negb (s =? "*")
      then Some (filter truthy (map trim (split ","%char s)))
      else None
  | None => None
  end.

(** What the [origin] option of the [cors] package may be told through
    its callback: a boolean or a fixed origin string. *)
Inductive StaticOrigin : Type :=
| OriginBool (b : bool)
| OriginString (s : string).

(** The two ways the origin function calls [callback]:
    [callback(null, value)] and [callback(new Error(message))]. *)
Inductive CallbackResult : Type :=
| CallbackOk (value : StaticOrigin)
| CallbackError (message : string).

(** The [origin(origin, callback)] function handed to [cors];
    [requestOrigin] is [req.headers.origin], [None] when the header is
    absent. *)
Definition origin (clientUrlEnv requestOrigin : option string) : CallbackResult :=
  match requestOrigin with
  | None => CallbackOk (OriginBool true)
  | Some o =>
      if negb (truthy o) then CallbackOk (OriginBool true)
      else if negb (opt_truthy clientUrlEnv)
              || match clientUrlEnv with Some s => s =? "*" | None => false end
      then CallbackOk (OriginBool true)
      else if match allowedOrigins clientUrlEnv with
              | Some allowed => includes allowed o
              | None => false
              end
      then CallbackOk (OriginBool true)
      else CallbackError ("CORS blocked for origin: " ++ o)
  end.

(** Truthiness of the value given to the callback. *)
Definition static_truthy (v : StaticOrigin) : bool :=
  match v with
  | OriginBool b => b
  | OriginString s => truthy s
  end.

(** The origin check allows the request: the callback gets no error and a
    truthy value. *)
Definition allows (clientUrlEnv requestOrigin : option string) : bool :=
  match origin clientUrlEnv requestOrigin with
  | CallbackOk value => static_truthy value
  | CallbackError _ => false
  end.

(** A [GET /api/home] request, by what the application reads of it: the
    [Origin] header, and Express's [req.fresh], which says that the request
    is conditional ([If-None-Match], [If-Modified-Since]) and that its
    validators match the response about to be sent. *)
Record Request : Type := mkRequest {
  req_origin : option string;   (* req.headers.origin *)
  req_fresh : bool              (* req.fresh *)
}.

Record Response : Type := mkResponse {
  res_status : nat;
  res_headers : list (string * string);
  res_body : string
}.

(** The document of the route, an object literal built on every call. *)
Definition greeting : JSON :=
  JObject [("message", JString "Hello World!");
           ("people", JArray [JString "Harry"; JString "Jack"; JString "Mary"])].

(** [res.json(value)] on the response of [req], whose status is still the
    default 200: a JSON content type and the stringified value as body;
    when the request is fresh, [res.send] answers 304 instead, without the
    content type and with an empty body. *)
Definition res_json (req : Request) (value : JSON) : Response :=
  if req_fresh req
  then {| res_status := 304; res_headers := []; res_body := "" |}
  else {| res_status := 200;
          res_headers := [("Content-Type", "application/json; charset=utf-8")];
          res_body := stringify value |}.

(** The handler of [app.get('/api/home', ...)]. *)
Definition home_handler (req : Request) : Response := res_json req greeting.

(** *** The [cors] package

    [cors] is a dependency and not part of the repository; the header
    computation and the middleware below follow its documented contract
    for the [origin]
    option: a boolean [true] reflects the request origin, a string sets a
    fixed origin, ["*"] allows any origin, a falsy value disables CORS,
    and an error given to the callback is passed to [next]. *)

(** Headers for a simple (non-preflight) request, from the value of
    [options.origin]: ["*"] for a falsy value or the wildcard, a fixed
    origin for any other string, and the request origin reflected for
    [true]. A header whose value is falsy is not set. *)
Definition configureOrigin (value : StaticOrigin) (requestOrigin : option string)
  : list (string * string) :=
  if negb (static_truthy value)
     || match value with OriginString s => s =? "*" | OriginBool _ => false end
  then [("Access-Control-Allow-Origin", "*")]
  else
    match value with
    | OriginString s => [("Access-Control-Allow-Origin", s); ("Vary", "Origin")]
    | OriginBool _ =>
        (match requestOrigin with
         | Some o => if truthy o then [("Access-Control-Allow-Origin", o)] else []
         | None => []
         end
         ++ [("Vary", "Origin")])%list
    end.

(** What becomes of a request: a response is sent, or an error reaches
    Express's error handling and no route handler runs. *)
Inductive Outcome : Type :=
| Sent (response : Response)
| Errored (message : string).

(** The application on a [GET /api/home] request: the [cors] middleware
    with the origin function above, then the route handler. *)
Definition get_home (clientUrlEnv : option string) (req : Request) : Outcome :=
  match origin clientUrlEnv (req_origin req) with
  | CallbackError message => Errored message
  | CallbackOk value =>
      let cors_headers :=
        if static_truthy value then configureOrigin value (req_origin req) else [] in
      let r := home_handler req in
      Sent {| res_status := res_status r;
              res_headers := (cors_headers ++ res_headers r)%list;
              res_body := res_body r |}
  end.

(** The value of a response header, if it is set. *)
Fixpoint header (name : string) (headers : list (string * string)) : option string :=
  match headers with
  | [] => None
  | (k, v) :: rest => if k =? name then Some v else header name rest
  end.

End Server.

(* ================================================================== *)
(** ** The presentation client: [client/pages/index.tsx] *)

Module Client.
Import JsString Json.

(** A thrown or rejected value, by what the [catch] clause can tell of it.
    A [DOMException] is also an instance of [Error]. *)
Inductive Thrown : Type :=
| ThrownDOMException (name message : string)
| ThrownError (message : string)
| ThrownValue.

(** What [await response.json()] gives: the parsed body, or a rejection
    (a body that is not JSON, a read that was aborted). *)
Inductive BodyResult : Type :=
| BodyJson (data : JSON)
| BodyRejects (reason : Thrown).

Record Response : Type := mkResponse {
  status : nat;
  statusText : string;
  body : BodyResult
}.

(** [response.ok]: the status is in the range 200-299. *)
Definition ok (r : Response) : bool :=
  (200 <=? status r)%nat && (status r <=? 299)%nat.

(** How the promise of [fetch] settles. *)
Inductive FetchOutcome : Type :=
| FetchResolves (response : Response)
| FetchRejects (reason : Thrown).

(** The rejection of a fetch whose signal was aborted. *)
Definition abortError : Thrown :=
  ThrownDOMException "AbortError" "The operation was aborted.".

(** Reading the property [message] or [people] of the parsed body: a
    [TypeError] on [null], the member of an object, and [undefined] on
    every other value (no built-in prototype defines these two names). *)
Inductive Property : Type :=
| PropThrows
| PropUndefined
| PropValue (v : JSON).

Definition get (data : JSON) (key : string) : Property :=
  match data with
  | JNull => PropThrows
  | JObject members =>
      match member key members with
      | Some v => PropValue v
      | None => PropUndefined
      end
  | _ => PropUndefined
  end.

(** The message of the [TypeError] of a property read on [null]; the
    wording is the engine's and no property below depends on it. *)
Definition null_read_message (key : string) : string :=
  "Cannot read properties of null (reading '" ++ key ++ "')".

(** The elements the two components put inside their outer [<div>]. *)
Inductive Element : Type :=
| LoadingDiv                               (* <div>Loading...</div> *)
| ErrorDiv (error : string)                (* <div>Error: {error}</div> *)
| MessageDiv (message : option JSON)       (* <div>{message}</div> *)
| PersonDiv (key : nat) (person : JSON).   (* <div key={index}>{person}</div> *)

(** [people.map((person, index) => <div key={index}>{person}</div>)],
    counting from [index]. *)
Fixpoint person_divs_from (index : nat) (people : list JSON) : list Element :=
  match people with
  | [] => []
  | person :: rest => PersonDiv index person :: person_divs_from (S index) rest
  end.

Definition person_divs (people : list JSON) : list Element :=
  person_divs_from 0 people.

(** What React accepts as a child: a string or a number is rendered, a
    boolean or null renders nothing, an array is rendered item by item; a
    plain object is refused with an error. *)
Fixpoint renderable (j : JSON) : bool :=
  match j with
  | JObject _ => false
  | JArray items => forallb renderable items
  | _ => true
  end.

(** The child of an element can be rendered ([undefined] renders
    nothing). *)
Definition element_ok (e : Element) : bool :=
  match e with
  | MessageDiv (Some m) => renderable m
  | PersonDiv _ person => renderable person
  | _ => true
  end.

(** Rendering the elements a component returned: React throws ([None])
    when a child cannot be rendered, and nothing of the page is shown. *)
Definition commit (elements : list Element) : option (list Element) :=
  if forallb element_ok elements then Some elements else None.

(** *** The first revision: function [index] *)
Module Index.

(** The two state cells; a cell holds whatever the body carried, also
    [undefined] ([None]). *)
Record State : Type := mkState {
  message : option JSON;
  people : option JSON
}.

Definition initial : State :=
  {| message := Some (JString ""); people := Some (JArray []) |}.

Inductive Write : Type :=
| SetMessage (m : option JSON)
| SetPeople (p : option JSON).

Definition write (s : State) (w : Write) : State :=
  match w with
  | SetMessage m => {| message := m; people := people s |}
  | SetPeople p => {| message := message s; people := p |}
  end.

Definition apply (ws : list Write) (s : State) : State := fold_left write ws s.

Definition value_of (p : Property) : option JSON :=
  match p with
  | PropValue v => Some v
  | _ => None
  end.

(** The effect: [fetch(...).then(r => r.json()).then(data => ...)]. The
    status is not looked at, and a rejection anywhere on the chain
    leaves the cells alone. *)
Definition effect (o : FetchOutcome) : list Write :=
  match o with
  | FetchRejects _ => []
  | FetchResolves response =>
      match body response with
      | BodyRejects _ => []
      | BodyJson data =>
          match get data "message" with
          | PropThrows => []
          | m => [SetMessage (value_of m); SetPeople (value_of (get data "people"))]
          end
      end
  end.

(** The rendering; [people.map] throws ([None]) unless [people] is an
    array, and React throws on a child it cannot render. *)
Definition render (s : State) : option (list Element) :=
  match people s with
  | Some (JArray l) => commit (MessageDiv (message s) :: person_divs l)
  | _ => None
  end.

(** The cells once the fetch has settled. *)
Definition settled (o : FetchOutcome) : State := apply (effect o) initial.

End Index.

(** *** The second revision: function [IndexPage] *)
Module IndexPage.

Record State : Type := mkState {
  message : JSON;
  people : list JSON;
  error : option string;
  loading : bool
}.

(** The arguments of the four [useState] calls. *)
Definition initial : State :=
  {| message := JString ""; people := []; error := None; loading := true |}.

Inductive Write : Type :=
| SetMessage (m : JSON)
| SetPeople (p : list JSON)
| SetError (e : option string)
| SetLoading (b : bool).

Definition write (s : State) (w : Write) : State :=
  match w with
  | SetMessage m =>
      {| message := m; people := people s; error := error s; loading := loading s |}
  | SetPeople p =>
      {| message := message s; people := p; error := error s; loading := loading s |}
  | SetError e =>
      {| message := message s; people := people s; error := e; loading := loading s |}
  | SetLoading b =>
      {| message := message s; people := people s; error := error s; loading := b |}
  end.

Definition apply (ws : list Write) (s : State) : State := fold_left write ws s.

(** [data.message ?? ""]. *)
Definition message_or_default (p : Property) : JSON :=
  match p with
  | PropValue JNull => JString ""
  | PropValue v => v
  | _ => JString ""
  end.

(** [Array.isArray(data.people) ? data.people : []]. *)
Definition people_or_default (p : Property) : list JSON :=
  match p with
  | PropValue (JArray l) => l
  | _ => []
  end.

(** [load], up to [await fetch(...)]. *)
Definition load_before_await : list Write := [SetError None; SetLoading true].

(** The rest of the [try] block once the fetch has settled: the writes
    made, and the value thrown if the block does not complete. *)
Definition try_block (o : FetchOutcome) : list Write * option Thrown :=
  match o with
  | FetchRejects reason => ([], Some reason)
  | FetchResolves response =>
      if negb (ok response)
      then ([], Some (ThrownError
                       ("Request failed: " ++ decimal (status response)
                        ++ " " ++ statusText response)))
      else match body response with
           | BodyRejects reason => ([], Some reason)
           | BodyJson data =>
               match get data "message" with
               | PropThrows => ([], Some (ThrownError (null_read_message "message")))
               | m => ([SetMessage (message_or_default m);
                        SetPeople (people_or_default (get data "people"))], None)
               end
           end
  end.

(** [e instanceof DOMException && e.name === "AbortError"]. *)
Definition is_abort (e : Thrown) : bool :=
  match e with
  | ThrownDOMException name _ => name =? "AbortError"
  | _ => false
  end.

(** [e instanceof Error ? e.message : "Failed to load"]. *)
Definition describe (e : Thrown) : string :=
  match e with
  | ThrownDOMException _ message => message
  | ThrownError message => message
  | ThrownValue => "Failed to load"
  end.

Definition catch_block (e : Thrown) : list Write :=
  if is_abort e then [] else [SetError (Some (describe e))].

Definition finally_block : list Write := [SetLoading false].

(** [load], from the settlement of the fetch to its end: the [finally]
    block runs however the [try] and [catch] blocks end. *)
Definition load_after_await (o : FetchOutcome) : list Write :=
  let (written, thrown) := try_block o in
  (written
   ++ match thrown with
      | Some e => catch_block e
      | None => []
      end
   ++ finally_block)%list.

Definition load (o : FetchOutcome) : list Write :=
  (load_before_await ++ load_after_await o)%list.

(** The children of the outer [<div>] the function returns. *)
Definition elements (s : State) : list Element :=
  ((if loading s then [LoadingDiv] else [])
   ++ match error s with
      | Some e => if truthy e then [ErrorDiv e] else []
      | None => []
      end
   ++ (if negb (loading s) && negb (opt_truthy (error s))
       then [MessageDiv (Some (message s))] else [])
   ++ person_divs (people s))%list.

(** The rendering: React throws ([None]) on a child it cannot render. *)
Definition render (s : State) : option (list Element) := commit (elements s).

(** **** One instance of the component

    React 19 batches the writes of one synchronous run, so the page is
    rendered from the cells as they are after each event below. A write
    made when the instance is no longer mounted does not reach the
    cells; it is kept in [late]. An instance that is mounted again while
    the fetch of its effect is still pending (as React's strict mode does
    right after the first mount) keeps its cells and runs the effect
    again; the aborted fetch is then counted in [stale] until it settles.
    Once the fetch has settled, an unmounted instance is gone: a later
    mount is a new instance, with the initial cells. *)
Inductive Phase : Type := Fresh | Mounted | Unmounted.

Record Instance : Type := mkInstance {
  cells : State;
  phase : Phase;
  inflight : bool;      (* the fetch of the effect has not settled *)
  aborted : bool;       (* controller.abort() was called *)
  late : list Write;    (* setter calls made after the unmount *)
  stale : nat           (* aborted fetches of earlier runs, not yet settled *)
}.

Definition fresh : Instance :=
  {| cells := initial; phase := Fresh; inflight := false; aborted := false;
     late := []; stale := 0 |}.

Inductive Event : Type :=
| Mount                        (* first render, then the effect calls load() *)
| Unmount                      (* the effect's cleanup: controller.abort() *)
| Settle (o : FetchOutcome)    (* the fetch settles and load() resumes *)
| SettleStale.                 (* an aborted fetch of an earlier run rejects *)

Definition step (i : Instance) (e : Event) : Instance :=
  match e with
  | Mount =>
      match phase i with
      | Fresh =>
          {| cells := apply load_before_await (cells i); phase := Mounted;
             inflight := true; aborted := false; late := late i;
             stale := stale i |}
      | Unmounted =>
          if inflight i then
            {| cells := apply load_before_await (cells i); phase := Mounted;
               inflight := true; aborted := false; late := late i;
               stale := S (stale i) |}
          else i
      | Mounted => i
      end
  | Unmount =>
      match phase i with
      | Mounted =>
          {| cells := cells i; phase := Unmounted;
             inflight := inflight i; aborted := true; late := late i;
             stale := stale i |}
      | _ => i
      end
  | Settle o =>
      if inflight i then
        let delivered := if aborted i then FetchRejects abortError else o in
        let writes := load_after_await delivered in
        match phase i with
        | Mounted =>
            {| cells := apply writes (cells i); phase := phase i;
               inflight := false; aborted := aborted i; late := late i;
               stale := stale i |}
        | _ =>
            {| cells := cells i; phase := phase i;
               inflight := false; aborted := aborted i;
               late := (late i ++ writes)%list; stale := stale i |}
        end
      else i
  | SettleStale =>
      match stale i with
      | O => i
      | S n =>
          let writes := load_after_await (FetchRejects abortError) in
          match phase i with
          | Mounted =>
              {| cells := apply writes (cells i); phase := phase i;
                 inflight := inflight i; aborted := aborted i; late := late i;
                 stale := n |}
          | _ =>
              {| cells := cells i; phase := phase i;
                 inflight := inflight i; aborted := aborted i;
                 late := (late i ++ writes)%list; stale := n |}
          end
      end
  end.

Definition run (events : list Event) : Instance := fold_left step events fresh.

(** The cells of a mounted instance once its fetch has settled with [o]. *)
Definition settled (o : FetchOutcome) : State :=
  cells (run [Mount; Settle o]).

(** The elements of a rendering that show one of the three display
    states. *)
Definition is_status (e : Element) : bool :=
  match e with
  | PersonDiv _ _ => false
  | _ => true
  end.

Definition status_elements (rendered : list Element) : list Element :=
  filter is_status rendered.

End IndexPage.

End Client.

(* ================================================================== *)
(** ** The data service as the specification words it *)

Module ServerSpec.
Import JsString Json Server.

(** The comma-separated entries of a [CLIENT_URL] value: joined by commas
    they give the value back, and none of them holds a comma. *)
Definition entries_of (value : string) (entries : list string) : Prop :=
  entries <> []
  /\ join ","%char entries = value
  /\ Forall (fun e => occurs ","%char e = false) entries.

(** [t] is [e] without its surrounding white space. *)
Definition trimmed (e t : string) : Prop :=
  exists l r,
    e = l ++ t ++ r
    /\ all_white l = true /\ all_white r = true
    /\ is_white_opt (first_char t) = false
    /\ is_white_opt (last_char t) = false.

(** The allowlist of a [CLIENT_URL] value: its comma-separated entries,
    each trimmed, the empty ones removed, in their order. *)
Definition spec_allowlist (value : string) (allowlist : list string) : Prop :=
  exists entries stripped,
    entries_of value entries
    /\ Forall2 trimmed entries stripped
    /\ allowlist = remove string_dec "" stripped.

(** No allowlist is configured: unset, or the wildcard. *)
Definition unconditional (clientUrlEnv : option string) : Prop :=
  allowedOrigins clientUrlEnv = None.

(** [o] is, character for character, an entry of the allowlist. *)
Definition listed (clientUrlEnv : option string) (o : string) : Prop :=
  exists allowlist, allowedOrigins clientUrlEnv = Some allowlist /\ In o allowlist.

(** The origin policy as claimed: no allowlist, or no [Origin] header,
    or a listed origin. *)
Definition claimed_allow (clientUrlEnv requestOrigin : option string) : Prop :=
  unconditional clientUrlEnv
  \/ requestOrigin = None
  \/ exists o, requestOrigin = Some o /\ listed clientUrlEnv o.

(** The origin policy of the code: an [Origin] header with an empty value
    counts as no header. *)
Definition policy_allow (clientUrlEnv requestOrigin : option string) : Prop :=
  unconditional clientUrlEnv
  \/ requestOrigin = None
  \/ requestOrigin = Some ""
  \/ exists o, requestOrigin = Some o /\ listed clientUrlEnv o.

(** The body literal of the specification. *)
Definition document : string :=
  text "{'message':'Hello World!','people':['Harry','Jack','Mary']}".

Definition allow_origin_header (r : Response) : option string :=
  header "Access-Control-Allow-Origin" (res_headers r).

(** The [Access-Control-Allow-Origin] header as claimed: the literal
    ["*"] when no allowlist is configured, the request origin when the
    allowlist matched it. *)
Definition claimed_allow_origin (clientUrlEnv : option string) (req : Request)
  : option string :=
  match allowedOrigins clientUrlEnv with
  | None => Some "*"
  | Some _ => req_origin req
  end.

End ServerSpec.

(* ================================================================== *)
(** ** The presentation client as the specification words it *)

Module ClientSpec.
Import JsString Json Client Client.IndexPage.

(** The display states of the page. *)
Inductive Display : Type :=
| Loading
| Loaded (message : JSON) (people : list JSON)
| Failed (errorMessage : string).

(** The rendering of the cells [s] shows the display state [d] and no
    other: its status element is the one of [d], followed by the person
    items. *)
Definition shows (s : State) (d : Display) : Prop :=
  match d with
  | Loading => render s = Some (LoadingDiv :: person_divs (people s))
  | Loaded m p => render s = Some (MessageDiv (Some m) :: person_divs p)
  | Failed e => render s = Some (ErrorDiv e :: person_divs (people s))
  end.

(** A JSON value that is a string. *)
Definition text (v : JSON) : Prop := exists t, v = JString t.

(** The body [data] carries display text only: its [message], when it has
    one, is a string or null, and when its [people] is an array, the items
    are strings. *)
Definition textual (data : JSON) : Prop :=
  (forall v, get data "message" = PropValue v -> v = JNull \/ text v)
  /\ (forall l, get data "people" = PropValue (JArray l) -> Forall text l).



(** A rejection that is a cancellation. *)
Definition cancelled (e : Thrown) : Prop :=
  exists message, e = ThrownDOMException "AbortError" message.

(** The description a failure carries when it is an [Error]. *)
Definition description (e : Thrown) : option string :=
  match e with
  | ThrownDOMException _ message => Some message
  | ThrownError message => Some message
  | ThrownValue => None
  end.

(** The message shown for a failure [e]: its own description, or the
    generic fallback text. *)
Definition failure_text (e : Thrown) (text : string) : Prop :=
  description e = Some text
  \/ (description e = None /\ text = "Failed to load").

(** The transition to [Failed] as claimed: a non-success status, or a
    rejection of the fetch that is not a cancellation. *)
Inductive claimed_failure : FetchOutcome -> string -> Prop :=
| claimed_status (r : Response) (text : string) :
    ok r = false ->
    contains (decimal (status r)) text ->
    contains (statusText r) text ->
    claimed_failure (FetchResolves r) text
| claimed_rejection (e : Thrown) (text : string) :
    ~ cancelled e ->
    failure_text e text ->
    claimed_failure (FetchRejects e) text.

(** The transition to [Failed] of the code: also when the body of a
    success response cannot be read, or is [null]. *)
Inductive failure : FetchOutcome -> string -> Prop :=
| failure_status (r : Response) :
    ok r = false ->
    failure (FetchResolves r)
      ("Request failed: " ++ decimal (status r) ++ " " ++ statusText r)
| failure_rejection (e : Thrown) (text : string) :
    ~ cancelled e ->
    failure_text e text ->
    failure (FetchRejects e) text
| failure_body (r : Response) (e : Thrown) (text : string) :
    ok r = true ->
    body r = BodyRejects e ->
    ~ cancelled e ->
    failure_text e text ->
    failure (FetchResolves r) text
| failure_null (r : Response) :
    ok r = true ->
    body r = BodyJson JNull ->
    failure (FetchResolves r) (null_read_message "message").

(** Cells in which a shown error excludes the loading indicator. *)
Definition settled_error (s : State) : Prop :=
  opt_truthy (error s) = true -> loading s = false.

(** The data cells still hold their initial values. *)
Definition pristine (s : State) : Prop :=
  message s = JString "" /\ people s = [].

(** What holds of an instance at every point of its life. *)
Record consistent (i : Instance) : Prop := {
  fresh_initial : phase i = Fresh -> cells i = initial;
  inflight_pristine :
    inflight i = true -> pristine (cells i) /\ error (cells i) = None;
  error_pristine : error (cells i) <> None -> pristine (cells i)
}.

End ClientSpec.

(* ================================================================== *)
(** ** The first revision of the data service *)

Module LegacyServer.
Import JsString Json Server.

(** The [origin] option: [process.env.CLIENT_URL || 'http://localhost:3000']. *)
Definition corsOrigin (clientUrlEnv : option string) : string :=
  match clientUrlEnv with
  | Some s => if truthy s then s else "http://localhost:3000"
  | None => "http://localhost:3000"
  end.

(** The application on a [GET /api/home] request: [cors] with a fixed
    origin string, which it hands to its own callback unchanged, then the
    same route handler as in the second revision. *)
Definition get_home (clientUrlEnv : option string) (req : Request) : Outcome :=
  let value := OriginString (corsOrigin clientUrlEnv) in
  let cors_headers :=
    if static_truthy value then configureOrigin value (req_origin req) else [] in
  let r := home_handler req in
  Sent {| res_status := res_status r;
          res_headers := (cors_headers ++ res_headers r)%list;
          res_body := res_body r |}.

End LegacyServer.

(* ================================================================== *)
(** ** The shape of an allowlist entry *)

Module AllowlistShape.
Import JsString.

(** An entry of the allowlist is not empty, holds no comma and neither
    starts nor ends with white space. *)
Definition clean (o : string) : Prop :=
  o <> ""
  /\ occurs ","%char o = false
  /\ is_white_opt (first_char o) = false
  /\ is_white_opt (last_char o) = false.

End AllowlistShape.

(* ================================================================== *)
(** ** Reading a rendering back *)

Module Rendered.
Import Json Client.

(** The [key] attributes of the elements that carry one, in order. *)
Fixpoint keys (elements : list Element) : list nat :=
  match elements with
  | [] => []
  | PersonDiv key _ :: rest => key :: keys rest
  | _ :: rest => keys rest
  end.

(** The persons of the person items, in order. *)
Fixpoint persons (elements : list Element) : list JSON :=
  match elements with
  | [] => []
  | PersonDiv _ person :: rest => person :: persons rest
  | _ :: rest => persons rest
  end.

End Rendered.

(* ================================================================== *)
(** ** Facts about the string primitives *)

Module JsStringFacts.
Import JsString.

Lemma truthy_true (s : string) : truthy s = true <-> s <> "".
Proof.
  unfold truthy. rewrite negb_true_iff. apply String.eqb_neq.
Qed.

Lemma truthy_false (s : string) : truthy s = false <-> s = "".
Proof.
  unfold truthy. rewrite negb_false_iff. apply String.eqb_eq.
Qed.

Lemma app_empty_r (s : string) : s ++ "" = s.
Proof. induction s as [|c s IH]; simpl; congruence. Qed.

Lemma app_assoc (a b c : string) : (a ++ b) ++ c = a ++ (b ++ c).
Proof. induction a as [|x a IH]; simpl; congruence. Qed.

Lemma includes_In (l : list string) (x : string) :
  includes l x = true <-> In x l.
Proof.
  unfold includes. rewrite existsb_exists. split.
  - intros [y [Hy He]]. apply String.eqb_eq in He. now subst.
  - intros H. exists x. split; [assumption | apply String.eqb_refl].
Qed.

(** *** [split] and [join] *)

Lemma split_not_nil (sep : ascii) (s : string) : split sep s <> [].
Proof.
  destruct s as [|c s]; simpl; [discriminate|].
  destruct (Ascii.eqb c sep); [discriminate|].
  destruct (split sep s); discriminate.
Qed.

Lemma join_cons_char (sep c : ascii) (p : string) (ps : list string) :
  join sep (String c p :: ps) = String c (join sep (p :: ps)).
Proof. destruct ps; reflexivity. Qed.

Lemma join_cons (sep : ascii) (p q : string) (ps : list string) :
  join sep (p :: q :: ps) = p ++ String sep (join sep (q :: ps)).
Proof. reflexivity. Qed.

Lemma join_split (sep : ascii) (s : string) : join sep (split sep s) = s.
Proof.
  induction s as [|c s IH]; [reflexivity|].
  simpl. destruct (Ascii.eqb_spec c sep) as [->|Hne].
  - destruct (split sep s) as [|p ps] eqn:E.
    + now apply split_not_nil in E.
    + rewrite join_cons, IH. reflexivity.
  - destruct (split sep s) as [|p ps] eqn:E.
    + now apply split_not_nil in E.
    + rewrite join_cons_char. now rewrite IH.
Qed.

Lemma split_pieces_free (sep : ascii) (s : string) :
  Forall (fun p => occurs sep p = false) (split sep s).
Proof.
  induction s as [|c s IH]; simpl.
  - constructor; [reflexivity | constructor].
  - destruct (Ascii.eqb_spec c sep) as [->|Hne].
    + constructor; [reflexivity | assumption].
    + destruct (split sep s) as [|p ps]; simpl.
      * constructor; [|constructor]. simpl.
        apply Ascii.eqb_neq in Hne. now rewrite Hne.
      * inversion IH as [|? ? Hp Hps]; subst.
        constructor; [|assumption]. simpl.
        apply Ascii.eqb_neq in Hne. now rewrite Hne.
Qed.

Lemma split_free (sep : ascii) (p : string) :
  occurs sep p = false -> split sep p = [p].
Proof.
  induction p as [|c p IH]; simpl; [reflexivity|].
  intros H. apply orb_false_iff in H as [Hc Hp].
  rewrite Hc, (IH Hp). reflexivity.
Qed.

Lemma split_app_sep (sep : ascii) (p s : string) :
  occurs sep p = false ->
  split sep (p ++ String sep s) = p :: split sep s.
Proof.
  induction p as [|c p IH]; simpl.
  - intros _. now rewrite Ascii.eqb_refl.
  - intros H. apply orb_false_iff in H as [Hc Hp].
    rewrite Hc, (IH Hp). reflexivity.
Qed.

Lemma split_join (sep : ascii) (pieces : list string) :
  pieces <> [] ->
  Forall (fun p => occurs sep p = false) pieces ->
  split sep (join sep pieces) = pieces.
Proof.
  induction pieces as [|p ps IH]; [congruence|].
  intros _ Hfree. inversion Hfree as [|? ? Hp Hps]; subst.
  destruct ps as [|q ps].
  - simpl. now apply split_free.
  - rewrite join_cons, (split_app_sep _ _ _ Hp).
    f_equal. apply IH; [discriminate | assumption].
Qed.

(** *** [trim] *)

Lemma trimStart_prefix (s : string) :
  exists l, s = l ++ trimStart s /\ all_white l = true.
Proof.
  induction s as [|c s [l [Hl Hw]]]; simpl.
  - now exists "".
  - destruct (is_white_space c) eqn:Hc.
    + exists (String c l). simpl. rewrite Hc, Hw. split; [congruence | reflexivity].
    + now exists "".
Qed.

Lemma trimStart_first (s : string) :
  is_white_opt (first_char (trimStart s)) = false.
Proof.
  induction s as [|c s IH]; simpl; [reflexivity|].
  destruct (is_white_space c) eqn:Hc; [assumption | simpl; assumption].
Qed.

Lemma trimStart_fixed (s : string) :
  is_white_opt (first_char s) = false -> trimStart s = s.
Proof.
  destruct s as [|c s]; simpl; [reflexivity|]. now intros ->.
Qed.

Lemma trimStart_white (l : string) :
  all_white l = true -> trimStart l = "".
Proof.
  induction l as [|c l IH]; simpl; [reflexivity|].
  intros H. apply andb_true_iff in H as [Hc Hl]. rewrite Hc. auto.
Qed.

Lemma trimStart_app (l s : string) :
  all_white l = true -> trimStart (l ++ s) = trimStart s.
Proof.
  induction l as [|c l IH]; simpl; [reflexivity|].
  intros H. apply andb_true_iff in H as [Hc Hl]. rewrite Hc. auto.
Qed.

Lemma trimEnd_suffix (s : string) :
  exists r, s = trimEnd s ++ r /\ all_white r = true.
Proof.
  induction s as [|c s [r [Hr Hw]]]; simpl.
  - now exists "".
  - destruct (trimEnd s) as [|d kept] eqn:E.
    + destruct (is_white_space c) eqn:Hc.
      * exists (String c r). simpl in *. rewrite Hc, Hw. split; [congruence | reflexivity].
      * exists r. simpl in *. split; [congruence | assumption].
    + exists r. simpl in *. split; [congruence | assumption].
Qed.

Lemma trimEnd_last (s : string) :
  is_white_opt (last_char (trimEnd s)) = false.
Proof.
  induction s as [|c s IH]; simpl; [reflexivity|].
  destruct (trimEnd s) as [|d kept] eqn:E.
  - destruct (is_white_space c) eqn:Hc; simpl; [reflexivity | assumption].
  - exact IH.
Qed.

Lemma trimEnd_white (r : string) :
  all_white r = true -> trimEnd r = "".
Proof.
  induction r as [|c r IH]; simpl; [reflexivity|].
  intros H. apply andb_true_iff in H as [Hc Hr]. now rewrite (IH Hr), Hc.
Qed.

Lemma trimEnd_first (s : string) :
  is_white_opt (first_char s) = false ->
  first_char (trimEnd s) = first_char s.
Proof.
  destruct s as [|c s]; simpl; [reflexivity|].
  intros Hc. destruct (trimEnd s); [now rewrite Hc | reflexivity].
Qed.

Lemma trimEnd_app (t r : string) :
  all_white r = true ->
  is_white_opt (last_char t) = false ->
  trimEnd (t ++ r) = t.
Proof.
  intros Hr. induction t as [|c t IH]; simpl.
  - intros _. now apply trimEnd_white.
  - destruct t as [|d t].
    + simpl. intros Hc. rewrite (trimEnd_white _ Hr). now rewrite Hc.
    + intros Hl. rewrite (IH Hl). reflexivity.
Qed.

End JsStringFacts.

(* ================================================================== *)
(** ** The data service: allowlist, origin policy, endpoint *)

Module ServerFacts.
Import JsString Json Server ServerSpec JsStringFacts.

Lemma trim_trimmed (e : string) : trimmed e (trim e).
Proof.
  destruct (trimStart_prefix e) as [l [Hl Hlw]].
  destruct (trimEnd_suffix (trimStart e)) as [r [Hr Hrw]].
  exists l, r. unfold trim. repeat split; try assumption.
  - now rewrite <- Hr.
  - rewrite trimEnd_first by apply trimStart_first. apply trimStart_first.
  - apply trimEnd_last.
Qed.

Lemma trimmed_trim (e t : string) : trimmed e t -> trim e = t.
Proof.
  intros [l [r [-> [Hl [Hr [Hfirst Hlast]]]]]].
  unfold trim. rewrite (trimStart_app _ _ Hl).
  destruct t as [|c t].
  - simpl. now rewrite (trimStart_white _ Hr).
  - rewrite trimStart_fixed by exact Hfirst.
    now apply trimEnd_app.
Qed.

Lemma stripped_map_trim (entries stripped : list string) :
  Forall2 trimmed entries stripped <-> stripped = map trim entries.
Proof.
  split.
  - induction 1 as [|e t es ts Ht _ IH]; simpl; [reflexivity|].
    now rewrite (trimmed_trim _ _ Ht), IH.
  - intros ->. induction entries as [|e es IH]; simpl; constructor.
    + apply trim_trimmed.
    + exact IH.
Qed.

Lemma remove_empty_filter (l : list string) :
  remove string_dec "" l = filter truthy l.
Proof.
  induction l as [|x l IH]; [reflexivity|].
  cbn [remove filter]. rewrite IH.
  destruct (string_dec "" x) as [<-|Hne]; [reflexivity|].
  assert (truthy x = true) as -> by (apply truthy_true; congruence).
  reflexivity.
Qed.

Lemma entries_of_split (value : string) (entries : list string) :
  entries_of value entries <-> entries = split ","%char value.
Proof.
  split.
  - intros [Hne [<- Hfree]]. symmetry. now apply split_join.
  - intros ->. repeat split.
    + apply split_not_nil.
    + apply join_split.
    + apply split_pieces_free.
Qed.

(** The list the code computes is the allowlist of the specification. *)
Lemma spec_allowlist_computed (value : string) (allowlist : list string) :
  spec_allowlist value allowlist
  <-> allowlist = filter truthy (map trim (split ","%char value)).
Proof.
  unfold spec_allowlist. split.
  - intros [entries [stripped [He [Hs ->]]]].
    apply entries_of_split in He. apply stripped_map_trim in Hs. subst.
    apply remove_empty_filter.
  - intros ->. exists (split ","%char value), (map trim (split ","%char value)).
    repeat split.
    + apply split_not_nil.
    + apply join_split.
    + apply split_pieces_free.
    + now apply stripped_map_trim.
    + symmetry. apply remove_empty_filter.
Qed.

(** No allowlist is held exactly when the origin function's second test
    succeeds. *)
Lemma unconditional_test (clientUrlEnv : option string) :
  unconditional clientUrlEnv
  <-> negb (opt_truthy clientUrlEnv)
      || match clientUrlEnv with Some s => s =? "*" | None => false end = true.
Proof.
  unfold unconditional, allowedOrigins.
  destruct clientUrlEnv as [s|]; simpl; [|tauto].
  destruct (truthy s), (s =? "*"); simpl; split; congruence.
Qed.

(** Every allowing path of the origin function hands [cors] the same
    value, [true]: the package cannot tell an unconditional decision from
    a matched allowlist. *)
Lemma origin_allows_true (clientUrlEnv requestOrigin : option string) :
  allows clientUrlEnv requestOrigin = true ->
  origin clientUrlEnv requestOrigin = CallbackOk (OriginBool true).
Proof.
  unfold allows, origin.
  destruct requestOrigin as [o|]; [|reflexivity].
  destruct (negb (truthy o)); [reflexivity|].
  destruct (negb (opt_truthy clientUrlEnv) || _); [reflexivity|].
  destruct (match allowedOrigins clientUrlEnv with Some _ => _ | None => _ end);
    [reflexivity | discriminate].
Qed.

Lemma origin_cases (clientUrlEnv requestOrigin : option string) :
  origin clientUrlEnv requestOrigin = CallbackOk (OriginBool true)
  \/ exists message, origin clientUrlEnv requestOrigin = CallbackError message.
Proof.
  destruct (allows clientUrlEnv requestOrigin) eqn:E.
  - left. now apply origin_allows_true.
  - right. unfold allows in E.
    destruct (origin clientUrlEnv requestOrigin) as [value|message] eqn:Ho.
    + unfold origin in Ho.
      destruct requestOrigin as [o|]; [|now injection Ho as <-].
      destruct (negb (truthy o)); [now injection Ho as <-|].
      destruct (negb (opt_truthy clientUrlEnv) || _); [now injection Ho as <-|].
      destruct (match allowedOrigins clientUrlEnv with Some _ => _ | None => _ end);
        [now injection Ho as <- | discriminate].
    + now exists message.
Qed.

Lemma allows_iff_policy (clientUrlEnv requestOrigin : option string) :
  allows clientUrlEnv requestOrigin = true <-> policy_allow clientUrlEnv requestOrigin.
Proof.
  unfold policy_allow, listed.
  pose proof (unconditional_test clientUrlEnv) as Hu.
  unfold allows, origin.
  destruct requestOrigin as [o|]; [|intuition].
  destruct (truthy o) eqn:Ho; simpl.
  2:{ apply truthy_false in Ho. subst. intuition. }
  apply truthy_true in Ho.
  destruct (negb (opt_truthy clientUrlEnv) || _) eqn:Htest.
  { intuition. }
  assert (~ unconditional clientUrlEnv) as Hset by (rewrite Hu; congruence).
  unfold unconditional in *.
  destruct (allowedOrigins clientUrlEnv) as [allowlist|]; [|congruence].
  destruct (includes allowlist o) eqn:Hin.
  - apply includes_In in Hin. split; [|reflexivity]. intros _.
    right. right. right. exists o. split; [reflexivity|].
    exists allowlist. now split.
  - split; [discriminate|].
    intros [H|[H|[H|[o' [Heq [l [Hl Hmem]]]]]]]; try congruence.
    injection Heq as <-. injection Hl as <-.
    apply includes_In in Hmem. congruence.
Qed.

Lemma allowed_is_sent (clientUrlEnv : option string) (req : Request) :
  allows clientUrlEnv (req_origin req) = true ->
  get_home clientUrlEnv req =
    Sent {| res_status := res_status (home_handler req);
            res_headers :=
              (configureOrigin (OriginBool true) (req_origin req)
               ++ res_headers (home_handler req))%list;
            res_body := res_body (home_handler req) |}.
Proof.
  intros H. unfold get_home. now rewrite (origin_allows_true _ _ H).
Qed.

Lemma handler_not_fresh (req : Request) :
  req_fresh req = false ->
  home_handler req
  = {| res_status := 200;
       res_headers := [("Content-Type", "application/json; charset=utf-8")];
       res_body := document |}.
Proof. intros H. unfold home_handler, res_json. now rewrite H. Qed.

Lemma handler_fresh (req : Request) :
  req_fresh req = true ->
  home_handler req = {| res_status := 304; res_headers := []; res_body := "" |}.
Proof. intros H. unfold home_handler, res_json. now rewrite H. Qed.

Lemma rejected_is_errored (clientUrlEnv : option string) (req : Request) :
  allows clientUrlEnv (req_origin req) = false ->
  exists o,
    req_origin req = Some o
    /\ origin clientUrlEnv (req_origin req)
       = CallbackError ("CORS blocked for origin: " ++ o)
    /\ get_home clientUrlEnv req = Errored ("CORS blocked for origin: " ++ o).
Proof.
  unfold get_home, allows, origin.
  destruct (req_origin req) as [o|]; [|discriminate].
  destruct (negb (truthy o)); [discriminate|].
  destruct (negb (opt_truthy clientUrlEnv) || _); [discriminate|].
  destruct (match allowedOrigins clientUrlEnv with Some _ => _ | None => _ end);
    [discriminate|].
  intros _. now exists o.
Qed.

(** C1, as claimed, fails: with the allowlist [https://a.example], a
    request whose [Origin] header is present but empty is allowed, though
    an allowlist is set, the header is there and the empty string is not
    one of its entries. *)
Lemma empty_origin_header_allowed :
  allows (Some "https://a.example") (Some "") = true
  /\ ~ claimed_allow (Some "https://a.example") (Some "").
Proof.
  split; [reflexivity|].
  intros [H|[H|[o [Ho [allowlist [Hl Hin]]]]]].
  - vm_compute in H. discriminate.
  - discriminate.
  - injection Ho as <-. vm_compute in Hl. injection Hl as <-.
    destruct Hin as [H|[]]. discriminate.
Qed.

(** C1, amended: the origin check allows a [GET /api/home] request if and
    only if no allowlist is held (CLIENT_URL unset, empty or the wildcard),
    or the request has no [Origin] header or an empty one, or its origin
    is exactly equal to an entry of the allowlist. An allowed request is
    answered by the route handler: with status 200 and the greeting
    document, or with 304 and no body when it is a fresh conditional
    request; every other request makes the check fail with the error "CORS
    blocked for origin: o", the route handler does not run and no document
    is sent. *)
Theorem origin_policy (clientUrlEnv : option string) (req : Request) :
  (allows clientUrlEnv (req_origin req) = true
   <-> policy_allow clientUrlEnv (req_origin req))
  /\ (policy_allow clientUrlEnv (req_origin req) ->
      exists r, get_home clientUrlEnv req = Sent r
                /\ res_status r = res_status (home_handler req)
                /\ res_body r = res_body (home_handler req)
                /\ (req_fresh req = false ->
                    res_status r = 200 /\ res_body r = document)
                /\ (req_fresh req = true ->
                    res_status r = 304 /\ res_body r = ""))
  /\ (~ policy_allow clientUrlEnv (req_origin req) ->
      exists o,
        req_origin req = Some o
        /\ origin clientUrlEnv (req_origin req)
           = CallbackError ("CORS blocked for origin: " ++ o)
        /\ get_home clientUrlEnv req = Errored ("CORS blocked for origin: " ++ o)).
Proof.
  split; [apply allows_iff_policy|]. split.
  - intros H. apply allows_iff_policy in H.
    rewrite (allowed_is_sent _ _ H). eexists.
    split; [reflexivity|]. cbn [res_status res_body].
    split; [reflexivity|]. split; [reflexivity|]. split; intros Hf.
    + now rewrite (handler_not_fresh _ Hf).
    + now rewrite (handler_fresh _ Hf).
  - intros H. apply rejected_is_errored.
    destruct (allows clientUrlEnv (req_origin req)) eqn:E; [|reflexivity].
    apply allows_iff_policy in E. contradiction.
Qed.

(** C4, as claimed, fails: a conditional request whose validator matches
    (a fresh request) is answered with status 304 and an empty body, not
    with 200 and the document. *)
Lemma fresh_request_not_modified :
  res_status (home_handler (mkRequest None true)) = 304
  /\ res_body (home_handler (mkRequest None true)) = ""
  /\ res_body (home_handler (mkRequest None true)) <> document.
Proof. repeat split. discriminate. Qed.

(** C4, amended: the handler of [GET /api/home] answers every request
    that is not a fresh conditional request with status 200 and exactly
    the body [{"message":"Hello World!","people":["Harry","Jack","Mary"]}];
    it reads nothing else of the request, so any two such calls give the
    same response, and that is the body of every response the application
    sends them for the route. *)
Theorem home_handler_constant (req : Request) :
  req_fresh req = false ->
  res_status (home_handler req) = 200
  /\ res_body (home_handler req) = document
  /\ (forall other, req_fresh other = false -> home_handler other = home_handler req)
  /\ (forall clientUrlEnv r,
        get_home clientUrlEnv req = Sent r ->
        res_status r = 200 /\ res_body r = document).
Proof.
  intros Hf. rewrite (handler_not_fresh _ Hf).
  split; [reflexivity|]. split; [reflexivity|]. split.
  - intros other Ho. apply (handler_not_fresh _ Ho).
  - intros clientUrlEnv r H. unfold get_home in H.
    destruct (origin clientUrlEnv (req_origin req)); [|discriminate].
    injection H as <-. cbn [res_status res_body].
    now rewrite (handler_not_fresh _ Hf).
Qed.

Lemma home_handler_constant_witness :
  req_fresh (mkRequest None false) = false
  /\ res_status (home_handler (mkRequest None false)) = 200
  /\ res_body (home_handler (mkRequest None false)) = document
  /\ (forall other, req_fresh other = false ->
                    home_handler other = home_handler (mkRequest None false))
  /\ (forall clientUrlEnv r,
        get_home clientUrlEnv (mkRequest None false) = Sent r ->
        res_status r = 200 /\ res_body r = document).
Proof.
  split; [reflexivity|]. apply (home_handler_constant (mkRequest None false)).
  reflexivity.
Defined.

(** C7, as claimed, fails: with CLIENT_URL unset the decision is
    unconditional, yet the header sent for a request from
    [https://a.example] is that origin and not the literal ["*"]. *)
Lemma unconditional_allow_reflects_origin :
  unconditional None
  /\ get_home None (mkRequest (Some "https://a.example") false)
     = Sent {| res_status := 200;
               res_headers :=
                 [("Access-Control-Allow-Origin", "https://a.example");
                  ("Vary", "Origin");
                  ("Content-Type", "application/json; charset=utf-8")];
               res_body := document |}
  /\ claimed_allow_origin None (mkRequest (Some "https://a.example") false) = Some "*".
Proof. repeat split. Qed.

(** C7, amended: on every allowed request to [GET /api/home] that
    declares a non-empty [Origin], the [Access-Control-Allow-Origin]
    header of the response is that request origin, whether an allowlist
    matched it or the decision was unconditional; a request with no
    [Origin] header, or an empty one, gets no such header. *)
Theorem allow_origin_reflects_request
  (clientUrlEnv : option string) (req : Request) (r : Response) :
  get_home clientUrlEnv req = Sent r ->
  (forall o, req_origin req = Some o -> o <> "" ->
             allow_origin_header r = Some o)
  /\ (req_origin req = None \/ req_origin req = Some "" ->
      allow_origin_header r = None).
Proof.
  intros Hsent.
  assert (allows clientUrlEnv (req_origin req) = true) as Hallow.
  { unfold allows. unfold get_home in Hsent.
    destruct (origin_cases clientUrlEnv (req_origin req)) as [->|[m Hm]];
      [reflexivity | now rewrite Hm in Hsent]. }
  rewrite (allowed_is_sent _ _ Hallow) in Hsent. injection Hsent as <-.
  unfold allow_origin_header, home_handler, res_json.
  destruct (req_fresh req); cbn [res_headers]; split.
  - intros o -> Ho. apply truthy_true in Ho. cbn -[truthy]. now rewrite Ho.
  - intros [->| ->]; reflexivity.
  - intros o -> Ho. apply truthy_true in Ho. cbn -[truthy]. now rewrite Ho.
  - intros [->| ->]; reflexivity.
Qed.

Lemma allow_origin_reflects_request_witness :
  get_home (Some "*") (mkRequest (Some "https://a.example") false)
  = Sent {| res_status := 200;
            res_headers :=
              [("Access-Control-Allow-Origin", "https://a.example");
               ("Vary", "Origin");
               ("Content-Type", "application/json; charset=utf-8")];
            res_body := document |}
  /\ allow_origin_header
       {| res_status := 200;
          res_headers :=
            [("Access-Control-Allow-Origin", "https://a.example");
             ("Vary", "Origin");
             ("Content-Type", "application/json; charset=utf-8")];
          res_body := document |}
     = Some "https://a.example".
Proof.
  split; [reflexivity|].
  apply (proj1 (allow_origin_reflects_request
                  (Some "*") (mkRequest (Some "https://a.example") false) _ eq_refl)
               "https://a.example" eq_refl).
  discriminate.
Defined.

(** C8, as claimed, fails: CLIENT_URL set to the empty string is set and
    is not the wildcard; its comma-separated entries, trimmed and with the
    empty ones removed, are the empty list, which matches no origin, yet
    the code holds no allowlist then and allows any origin. *)
Lemma empty_client_url_has_no_allowlist :
  "" <> "*"
  /\ spec_allowlist "" []
  /\ allowedOrigins (Some "") = None
  /\ allows (Some "") (Some "https://b.example") = true.
Proof.
  split; [discriminate|]. split; [|split; reflexivity].
  now apply spec_allowlist_computed.
Qed.

(** C8, amended: for every CLIENT_URL value that is set, not empty and
    not the wildcard ["*"], the allowlist used for origin matching is the
    list of the comma-separated entries of the value, each with its
    surrounding white space trimmed, the empty ones removed; a request
    that declares an origin is allowed exactly when the origin is one of
    them. *)
Theorem allowlist_from_client_url (value : string) :
  value <> "" -> value <> "*" ->
  exists allowlist,
    allowedOrigins (Some value) = Some allowlist
    /\ spec_allowlist value allowlist
    /\ (forall other, spec_allowlist value other -> other = allowlist)
    /\ (forall o, o <> "" ->
          (allows (Some value) (Some o) = true <-> In o allowlist)).
Proof.
  intros Hne Hnw.
  assert (allowedOrigins (Some value)
          = Some (filter truthy (map trim (split ","%char value)))) as Hl.
  { unfold allowedOrigins.
    apply truthy_true in Hne. apply String.eqb_neq in Hnw.
    now rewrite Hne, Hnw. }
  eexists. split; [exact Hl|]. split; [now apply spec_allowlist_computed|].
  split.
  - intros other H. now apply spec_allowlist_computed in H.
  - intros o Ho. rewrite allows_iff_policy.
    unfold policy_allow, unconditional, listed. rewrite Hl. split.
    + intros [H|[H|[H|[o' [Heq [l [Hl' Hin]]]]]]]; try congruence.
    + intros Hin. right. right. right. exists o. split; [reflexivity|].
      eexists. split; [reflexivity | exact Hin].
Qed.

Lemma allowlist_from_client_url_witness :
  (exists allowlist,
     allowedOrigins (Some "https://a.example, https://b.example") = Some allowlist
     /\ spec_allowlist "https://a.example, https://b.example" allowlist
     /\ (forall other,
           spec_allowlist "https://a.example, https://b.example" other ->
           other = allowlist)
     /\ (forall o, o <> "" ->
           (allows (Some "https://a.example, https://b.example") (Some o) = true
            <-> In o allowlist)))
  /\ allowedOrigins (Some "https://a.example, https://b.example")
     = Some ["https://a.example"; "https://b.example"]
  /\ allows (Some "https://a.example, https://b.example")
            (Some "https://b.example") = true.
Proof.
  split; [|split; reflexivity].
  apply allowlist_from_client_url; discriminate.
Defined.

End ServerFacts.

(* ================================================================== *)
(** ** The presentation client: fetch life cycle and rendering *)

Module ClientFacts.
Import JsString Json Client Client.IndexPage ClientSpec JsStringFacts.

(** *** The writes of [load] *)

Lemma apply_app (ws ws' : list Write) (s : State) :
  apply (ws ++ ws') s = apply ws' (apply ws s).
Proof. unfold apply. apply fold_left_app. Qed.

Lemma is_abort_cancelled (e : Thrown) : is_abort e = true <-> cancelled e.
Proof.
  unfold cancelled. destruct e as [name message|message|]; simpl.
  - rewrite String.eqb_eq. split.
    + intros ->. now exists message.
    + intros [m H]. congruence.
  - split; [discriminate | intros [m H]; discriminate].
  - split; [discriminate | intros [m H]; discriminate].
Qed.

Lemma not_abort_cancelled (e : Thrown) : is_abort e = false <-> ~ cancelled e.
Proof.
  rewrite <- is_abort_cancelled. destruct (is_abort e); split; congruence.
Qed.

Lemma describe_failure_text (e : Thrown) (text : string) :
  failure_text e text <-> describe e = text.
Proof.
  unfold failure_text. destruct e as [name message|message|]; simpl.
  - split; [intros [H|[H _]]; congruence | intros ->; now left].
  - split; [intros [H|[H _]]; congruence | intros ->; now left].
  - split; [intros [H|[_ H]]; congruence | intros <-; now right].
Qed.

(** The writes after the await, case by case. *)
Lemma after_not_ok (r : Response) :
  ok r = false ->
  load_after_await (FetchResolves r)
  = [SetError (Some ("Request failed: " ++ decimal (status r)
                     ++ " " ++ statusText r));
     SetLoading false].
Proof. intros H. unfold load_after_await, try_block. now rewrite H. Qed.

Lemma after_thrown (e : Thrown) :
  load_after_await (FetchRejects e) = (catch_block e ++ finally_block)%list.
Proof. reflexivity. Qed.

Lemma after_body_rejects (r : Response) (e : Thrown) :
  ok r = true -> body r = BodyRejects e ->
  load_after_await (FetchResolves r) = (catch_block e ++ finally_block)%list.
Proof.
  intros H Hb. unfold load_after_await, try_block. now rewrite H, Hb.
Qed.

Lemma after_null (r : Response) :
  ok r = true -> body r = BodyJson JNull ->
  load_after_await (FetchResolves r)
  = [SetError (Some (null_read_message "message")); SetLoading false].
Proof.
  intros H Hb. unfold load_after_await, try_block. now rewrite H, Hb.
Qed.

Lemma after_data (r : Response) (data : JSON) :
  ok r = true -> body r = BodyJson data -> data <> JNull ->
  load_after_await (FetchResolves r)
  = [SetMessage (message_or_default (get data "message"));
     SetPeople (people_or_default (get data "people"));
     SetLoading false].
Proof.
  intros H Hb Hd. unfold load_after_await, try_block. rewrite H, Hb. simpl.
  destruct data; try reflexivity; [congruence|].
  simpl. destruct (member "message" members); reflexivity.
Qed.

(** Every resumption of [load] ends with [loading] false. *)
Lemma after_loading_false (o : FetchOutcome) (s : State) :
  loading (apply (load_after_await o) s) = false.
Proof.
  unfold load_after_await. destruct (try_block o) as [written thrown].
  rewrite !apply_app. reflexivity.
Qed.

(** A resumption that leaves an error has written neither [message] nor
    [people]. *)
Lemma after_error_keeps_data (o : FetchOutcome) (s : State) :
  error s = None ->
  error (apply (load_after_await o) s) <> None ->
  message (apply (load_after_await o) s) = message s
  /\ people (apply (load_after_await o) s) = people s.
Proof.
  intros Hs. unfold load_after_await, try_block.
  destruct o as [r|e].
  - destruct (negb (ok r)); [now split|].
    destruct (body r) as [data|e].
    + destruct (get data "message"); simpl; try (now split); congruence.
    + unfold catch_block. destruct (is_abort e); now split.
  - unfold catch_block. destruct (is_abort e); now split.
Qed.

(** *** Rendering *)


Lemma person_divs_ok (index : nat) (l : list JSON) :
  forallb element_ok (person_divs_from index l) = forallb renderable l.
Proof.
  revert index. induction l as [|p l IH]; intros index; simpl; [reflexivity|].
  now rewrite IH.
Qed.

Lemma text_renderable (l : list JSON) :
  Forall text l -> forallb renderable l = true.
Proof.
  induction 1 as [|v l [t ->] _ IH]; simpl; [reflexivity | exact IH].
Qed.

(** The function returns one status element, then the person items. *)
Lemma elements_one_status (s : State) :
  settled_error s ->
  (loading s = true /\ elements s = LoadingDiv :: person_divs (people s))
  \/ (exists e, loading s = false /\ error s = Some e /\ e <> ""
                /\ elements s = ErrorDiv e :: person_divs (people s))
  \/ (loading s = false /\ opt_truthy (error s) = false
      /\ elements s = MessageDiv (Some (message s)) :: person_divs (people s)).
Proof.
  unfold settled_error, elements.
  destruct s as [m p e l]; simpl. intros H.
  destruct l.
  - left. split; [reflexivity|].
    destruct e as [e|]; simpl in *; [|reflexivity].
    destruct (truthy e); [now specialize (H eq_refl) | reflexivity].
  - right. destruct e as [e|]; simpl.
    + destruct (truthy e) eqn:He.
      * left. exists e. apply truthy_true in He. now repeat split.
      * right. now repeat split.
    + right. now repeat split.
Qed.



(** In the error and loading states the message is not a child: the
    people alone must be renderable. *)
Lemma render_without_message (s : State) :
  forallb renderable (people s) = true -> settled_error s ->
  loading s = true \/ opt_truthy (error s) = true ->
  (loading s = true /\ shows s Loading)
  \/ (exists e, loading s = false /\ error s = Some e /\ e <> ""
                /\ shows s (Failed e)).
Proof.
  intros Hp H Hcase. unfold shows, render, commit.
  destruct (elements_one_status s H)
    as [[Hl ->]|[[e [Hl [He [Hne ->]]]]|[Hl [He _]]]];
    unfold person_divs; cbn [forallb element_ok];
    try rewrite person_divs_ok, Hp.
  - now left.
  - right. exists e. now repeat split.
  - destruct Hcase; congruence.
Qed.

(** *** One instance *)

Lemma run_app (events more : list Event) :
  run (events ++ more) = fold_left step more (run events).
Proof. unfold run. apply fold_left_app. Qed.

(** The cells of an instance never show an error next to the loading
    indicator. *)
Lemma step_settled_error (i : Instance) (e : Event) :
  settled_error (cells i) -> settled_error (cells (step i e)).
Proof.
  destruct i as [c p f a l n]. simpl. intros H.
  destruct e as [| |o|]; simpl.
  - destruct p; [discriminate | exact H |]. destruct f; [discriminate | exact H].
  - destruct p; exact H.
  - destruct f; [|exact H].
    destruct p; [exact H| |exact H]. simpl.
    intros _. apply after_loading_false.
  - destruct n; [exact H|].
    destruct p; [exact H| |exact H]. now simpl.
Qed.

Lemma run_settled_error (events : list Event) :
  settled_error (cells (run events)).
Proof.
  induction events as [|e events IH] using rev_ind.
  - discriminate.
  - rewrite run_app. simpl. now apply step_settled_error.
Qed.

Lemma fresh_consistent : consistent fresh.
Proof. split; simpl; congruence. Qed.

Lemma step_consistent (i : Instance) (e : Event) :
  consistent i -> consistent (step i e).
Proof.
  destruct i as [c p f a l n]. intros [Hfresh Hflight Herr]. simpl in *.
  destruct e as [| |o|]; simpl.
  - destruct p.
    + rewrite (Hfresh eq_refl). split; simpl; try congruence.
      intros _. now repeat split.
    + now split.
    + destruct f; [|now split].
      destruct (Hflight eq_refl) as [[Hm Hp] He].
      split; simpl; try congruence. intros _. now repeat split.
  - destruct p; [now split| |now split].
    split; simpl; [discriminate | exact Hflight | exact Herr].
  - destruct f; [|now split].
    destruct (Hflight eq_refl) as [[Hm Hpl] He].
    destruct p.
    + split; simpl; [exact Hfresh | discriminate | exact Herr].
    + split; simpl; [discriminate | discriminate |].
      intros H. destruct (after_error_keeps_data _ _ He H) as [Hm' Hpl'].
      split; congruence.
    + split; simpl; [discriminate | discriminate | exact Herr].
  - destruct n; [now split|].
    destruct p; [now split| |now split].
    split; simpl; [discriminate | exact Hflight | exact Herr].
Qed.

Lemma run_consistent (events : list Event) : consistent (run events).
Proof.
  induction events as [|e events IH] using rev_ind.
  - apply fresh_consistent.
  - rewrite run_app. simpl. now apply step_consistent.
Qed.

(** A textual body gives cells React can render. *)
Lemma textual_presentable (data : JSON) :
  textual data ->
  renderable (message_or_default (get data "message")) = true
  /\ forallb renderable (people_or_default (get data "people")) = true.
Proof.
  intros [Hm Hp]. split.
  - destruct (get data "message") as [| |v]; try reflexivity.
    destruct (Hm v eq_refl) as [->|[t ->]]; reflexivity.
  - destruct (get data "people") as [| |v]; try reflexivity.
    destruct v; try reflexivity. simpl. apply text_renderable. now apply Hp.
Qed.

Lemma settled_unfold (o : FetchOutcome) :
  settled o = apply (load_after_await o) (apply load_before_await initial).
Proof. reflexivity. Qed.

(** C2, evaluated on the code at unmount-before-settle: whatever the
    fetch would have given, the aborted fetch rejects, the [catch] block
    returns without a write and surfaces no error, but the [finally]
    block still calls [setLoading(false)]: one setter call is made after
    the unmount. *)
Theorem unmount_before_settle (o : FetchOutcome) :
  late (run [Mount; Unmount; Settle o]) = [SetLoading false]
  /\ catch_block abortError = []
  /\ cells (run [Mount; Unmount; Settle o]) = cells (run [Mount]).
Proof. repeat split. Qed.

(** The same late write on a re-mount, where the effect runs again on the
    cells of the instance: the resumption of the aborted first [load] lands
    on the live cells and takes the loading indicator away while the second
    fetch is still pending. *)
Example remount_loses_loading :
  inflight (run [Mount; Unmount; Mount; SettleStale]) = true
  /\ loading (cells (run [Mount; Unmount; Mount; SettleStale])) = false
  /\ render (cells (run [Mount; Unmount; Mount; SettleStale]))
     = Some [MessageDiv (Some (JString ""))].
Proof. repeat split. Qed.

(** C3, as claimed, fails: a response with status 200 whose body is the
    JSON value [null], or is not JSON at all, does not lead to [Loaded];
    the page shows [Failed]. Nor does a body whose message is a plain
    object: React refuses it as a child and the page shows nothing. *)
Lemma success_status_not_loaded :
  ok (mkResponse 200 "OK" (BodyJson JNull)) = true
  /\ (~ exists m p,
        shows (settled (FetchResolves (mkResponse 200 "OK" (BodyJson JNull))))
              (Loaded m p))
  /\ shows (settled (FetchResolves (mkResponse 200 "OK" (BodyJson JNull))))
           (Failed (null_read_message "message"))
  /\ shows (settled (FetchResolves
              (mkResponse 200 "OK" (BodyRejects (ThrownError "Unexpected token")))))
           (Failed "Unexpected token")
  /\ render (settled (FetchResolves
               (mkResponse 200 "OK"
                  (BodyJson (JObject [("message", JObject [("a", JString "b")])])))))
     = None.
Proof.
  split; [reflexivity|]. split; [|repeat split].
  intros [m [p H]]. vm_compute in H. discriminate.
Qed.

(** C3, amended: for every fetch that resolves with an HTTP success
    status and whose body parses to a JSON value other than [null] that
    carries display text only (its message, when present, is a string or
    null; the items of its people, when that is an array, are strings),
    the page enters [Loaded]: no error, not loading, the message line and
    the person items rendered. The message is the body's [message], and
    the empty string when that key is absent (or null); the people are the
    body's [people] when it is an array, and the empty sequence when the
    key is absent or holds anything else. *)
Theorem loaded_with_defaults (r : Response) (data : JSON) :
  ok r = true -> body r = BodyJson data -> data <> JNull -> textual data ->
  shows (settled (FetchResolves r))
        (Loaded (message (settled (FetchResolves r)))
                (people (settled (FetchResolves r))))
  /\ error (settled (FetchResolves r)) = None
  /\ loading (settled (FetchResolves r)) = false
  /\ (forall v, get data "message" = PropValue v -> v <> JNull ->
                message (settled (FetchResolves r)) = v)
  /\ (get data "message" = PropUndefined \/ get data "message" = PropValue JNull ->
      message (settled (FetchResolves r)) = JString "")
  /\ (forall l, get data "people" = PropValue (JArray l) ->
                people (settled (FetchResolves r)) = l)
  /\ ((forall l, get data "people" <> PropValue (JArray l)) ->
      people (settled (FetchResolves r)) = []).
Proof.
  intros Hok Hbody Hdata Htext.
  pose proof (textual_presentable data Htext) as [Hm Hp].
  rewrite settled_unfold, (after_data r data Hok Hbody Hdata).
  split.
  - unfold shows, render, commit, elements, person_divs. cbn.
    now rewrite person_divs_ok, Hm, Hp.
  - cbn. repeat split.
    + intros v -> Hv. destruct v; simpl; congruence.
    + intros [->| ->]; reflexivity.
    + now intros l ->.
    + intros H. destruct (get data "people") as [| |v]; try reflexivity.
      destruct v; try reflexivity. now specialize (H items).
Qed.

Lemma loaded_with_defaults_witness :
  shows (settled (FetchResolves
           (mkResponse 200 "OK" (BodyJson (JObject [("message", JString "hi")])))))
        (Loaded (JString "hi") [])
  /\ shows (settled (FetchResolves (mkResponse 200 "OK" (BodyJson (JObject [])))))
           (Loaded (JString "") []).
Proof.
  split.
  - apply (loaded_with_defaults
             (mkResponse 200 "OK" (BodyJson (JObject [("message", JString "hi")])))
             (JObject [("message", JString "hi")]) eq_refl eq_refl).
    + discriminate.
    + split.
      * intros v H. injection H as <-. right. now exists "hi".
      * intros l H. discriminate.
  - apply (loaded_with_defaults
             (mkResponse 200 "OK" (BodyJson (JObject [])))
             (JObject []) eq_refl eq_refl).
    + discriminate.
    + split; intros v H; discriminate.
Defined.

(** *** Failure *)

Lemma contains_middle (before sub after : string) :
  contains sub (before ++ sub ++ after).
Proof. now exists before, after. Qed.

Lemma status_text_contained (r : Response) :
  contains (decimal (status r))
           ("Request failed: " ++ decimal (status r) ++ " " ++ statusText r)
  /\ contains (statusText r)
              ("Request failed: " ++ decimal (status r) ++ " " ++ statusText r).
Proof.
  split.
  - apply contains_middle.
  - exists ("Request failed: " ++ decimal (status r) ++ " "), "".
    now rewrite app_empty_r, !app_assoc.
Qed.

Lemma error_after_catch (e : Thrown) (s : State) (text : string) :
  error s = None ->
  (error (apply (catch_block e ++ finally_block) s) = Some text
   <-> ~ cancelled e /\ failure_text e text).
Proof.
  intros Hs. rewrite <- not_abort_cancelled, describe_failure_text.
  unfold catch_block. destruct (is_abort e); simpl.
  - rewrite Hs. split; [discriminate | intros [H _]; discriminate].
  - split; [intros H; split; congruence | intros [_ ->]; reflexivity].
Qed.

Lemma error_settled_iff (o : FetchOutcome) (text : string) :
  error (settled o) = Some text <-> failure o text.
Proof.
  rewrite settled_unfold.
  assert (error (apply load_before_await initial) = None) as Hnone by reflexivity.
  split.
  - destruct o as [r|e].
    + destruct (ok r) eqn:Hok.
      * destruct (body r) as [data|e] eqn:Hbody.
        -- destruct data;
             try (rewrite (after_data r _ Hok Hbody) by discriminate; discriminate).
           rewrite (after_null r Hok Hbody). simpl. intros H.
           injection H as <-. now apply failure_null.
        -- rewrite (after_body_rejects r e Hok Hbody).
           intros H. apply error_after_catch in H as [Hc Ht]; [|exact Hnone].
           now apply failure_body with e.
      * rewrite (after_not_ok r Hok). simpl. intros H.
        injection H as <-. now apply failure_status.
    + rewrite after_thrown. intros H.
      apply error_after_catch in H as [Hc Ht]; [|exact Hnone].
      now apply failure_rejection.
  - intros H. destruct H as [r Hok|e t Hc Ht|r e t Hok Hbody Hc Ht|r Hok Hbody].
    + now rewrite (after_not_ok r Hok).
    + rewrite after_thrown. now apply error_after_catch.
    + rewrite (after_body_rejects r e Hok Hbody). now apply error_after_catch.
    + now rewrite (after_null r Hok Hbody).
Qed.

Lemma error_shown (events : list Event) (text : string) :
  error (cells (run events)) = Some text -> text <> "" ->
  shows (cells (run events)) (Failed text).
Proof.
  intros He Hne.
  assert (error (cells (run events)) <> None) as Hsome by congruence.
  destruct (error_pristine _ (run_consistent events) Hsome) as [_ Hp].
  assert (opt_truthy (error (cells (run events))) = true) as Ht.
  { rewrite He. simpl. now apply truthy_true. }
  pose proof (run_settled_error events) as Hinv.
  destruct (render_without_message (cells (run events)))
    as [[Hl _]|[e [_ [He' [_ Hs]]]]]; try assumption.
  - now rewrite Hp.
  - now right.
  - rewrite (Hinv Ht) in Hl. discriminate.
  - congruence.
Qed.

(** C5, as claimed, fails: a response with status 200 whose body is the
    JSON value [null] (or is not JSON) takes the page to [Failed], though
    the status is a success status and the fetch did not reject. *)
Lemma failed_after_success_status :
  shows (settled (FetchResolves (mkResponse 200 "OK" (BodyJson JNull))))
        (Failed (null_read_message "message"))
  /\ ~ claimed_failure (FetchResolves (mkResponse 200 "OK" (BodyJson JNull)))
                       (null_read_message "message")
  /\ shows (settled (FetchResolves
              (mkResponse 200 "OK" (BodyRejects (ThrownError "Unexpected token")))))
           (Failed "Unexpected token")
  /\ ~ claimed_failure
         (FetchResolves
            (mkResponse 200 "OK" (BodyRejects (ThrownError "Unexpected token"))))
         "Unexpected token".
Proof.
  split; [reflexivity|]. split; [|split; [reflexivity|]].
  - intros H. inversion H as [r t Hok Hcode Htext|]; subst. discriminate.
  - intros H. inversion H as [r t Hok Hcode Htext|]; subst. discriminate.
Qed.

(** C5, amended: a mounted page, which shows [Loading] while its fetch is
    pending, has its error set to a text exactly when (a) the fetch
    resolves with a non-success status, the text being "Request failed:",
    the status code and the status text, or (b) the fetch rejects for a
    reason other than cancellation, or (c) the status is a success status
    but reading the body rejects for a reason other than cancellation, the
    text in (b) and (c) being the failure's own description when it is an
    Error and "Failed to load" otherwise, or (d) the body of a success
    response is the JSON value null, the text being that of the TypeError.
    A non-empty text is rendered as the [Failed] state. *)
Theorem failed_exactly_when (o : FetchOutcome) (text : string) :
  shows (cells (run [Mount])) Loading
  /\ (error (settled o) = Some text <-> failure o text)
  /\ (error (settled o) = Some text -> text <> "" ->
      shows (settled o) (Failed text))
  /\ (forall r, o = FetchResolves r -> ok r = false ->
        error (settled o)
        = Some ("Request failed: " ++ decimal (status r) ++ " " ++ statusText r)
        /\ contains (decimal (status r))
             ("Request failed: " ++ decimal (status r) ++ " " ++ statusText r)
        /\ contains (statusText r)
             ("Request failed: " ++ decimal (status r) ++ " " ++ statusText r)).
Proof.
  split; [reflexivity|]. split; [apply error_settled_iff|]. split.
  - apply (error_shown [Mount; Settle o]).
  - intros r -> Hok. split; [|apply status_text_contained].
    apply error_settled_iff. now apply failure_status.
Qed.

(** A response with status 500 is shown as [Failed] with a message that
    contains "500". *)
Example status_500_failed (b : BodyResult) :
  shows (settled (FetchResolves (mkResponse 500 "Internal Server Error" b)))
        (Failed "Request failed: 500 Internal Server Error")
  /\ contains "500" "Request failed: 500 Internal Server Error".
Proof.
  split; [reflexivity|].
  now exists "Request failed: ", " Internal Server Error".
Qed.

(** *** One display state at a time *)








(** Were the two writes of a failing [load] rendered one by one, the
    rendering in between would show two states; the property above rests
    on their being batched. *)
Remark unbatched_failure_shows_two :
  status_elements
    (elements (apply [SetError (Some "x")] (apply load_before_await initial)))
  = [LoadingDiv; ErrorDiv "x"].
Proof. reflexivity. Qed.

(** C9: whenever the error cell of [IndexPage] is not null, the message
    cell still holds the empty string and the people cell the empty list,
    so that a shown failure is the error line alone, with no person
    item. *)
Theorem failed_keeps_initial_data (events : list Event) :
  error (cells (run events)) <> None ->
  message (cells (run events)) = JString ""
  /\ people (cells (run events)) = []
  /\ forall e, error (cells (run events)) = Some e -> e <> "" ->
               render (cells (run events)) = Some [ErrorDiv e].
Proof.
  intros H.
  destruct (error_pristine _ (run_consistent events) H) as [Hm Hp].
  repeat split; try assumption.
  intros e He Hne. pose proof (error_shown events e He Hne) as Hs.
  unfold shows in Hs. now rewrite Hs, Hp.
Qed.

Lemma failed_keeps_initial_data_witness :
  error (cells (run [Mount; Settle (FetchRejects ThrownValue)])) <> None
  /\ message (cells (run [Mount; Settle (FetchRejects ThrownValue)])) = JString ""
  /\ people (cells (run [Mount; Settle (FetchRejects ThrownValue)])) = []
  /\ forall e,
       error (cells (run [Mount; Settle (FetchRejects ThrownValue)])) = Some e ->
       e <> "" ->
       render (cells (run [Mount; Settle (FetchRejects ThrownValue)]))
       = Some [ErrorDiv e].
Proof.
  split; [discriminate|].
  apply (failed_keeps_initial_data [Mount; Settle (FetchRejects ThrownValue)]).
  discriminate.
Defined.

(** *** The two revisions *)

(** C10: for every fetch that resolves with a success status and a JSON
    body whose [message] is a string and whose [people] is an array, the
    first revision ([index]) and the second ([IndexPage]) end with the
    same message and the same people, and render alike; when the people
    are strings, both render the same children: the message line, then one
    item per person, in order, keyed by position. *)
Theorem revisions_agree (r : Response) (data : JSON) (m : string) (l : list JSON) :
  ok r = true ->
  body r = BodyJson data ->
  get data "message" = PropValue (JString m) ->
  get data "people" = PropValue (JArray l) ->
  Index.message (Index.settled (FetchResolves r))
  = Some (message (settled (FetchResolves r)))
  /\ Index.people (Index.settled (FetchResolves r))
     = Some (JArray (people (settled (FetchResolves r))))
  /\ Index.render (Index.settled (FetchResolves r))
     = render (settled (FetchResolves r))
  /\ (Forall text l ->
      render (settled (FetchResolves r))
      = Some (MessageDiv (Some (JString m)) :: person_divs l)).
Proof.
  intros Hok Hbody Hm Hp.
  assert (data <> JNull) as Hdata by (intros ->; discriminate).
  rewrite settled_unfold, (after_data r data Hok Hbody Hdata).
  unfold Index.settled, Index.effect. rewrite Hbody, Hm, Hp.
  split; [reflexivity|]. split; [reflexivity|]. split; [reflexivity|].
  intros Ht. unfold render, commit, elements, person_divs. cbn.
  now rewrite person_divs_ok, (text_renderable l Ht).
Qed.

Lemma revisions_agree_witness :
  Index.render
    (Index.settled (FetchResolves (mkResponse 200 "OK" (BodyJson Server.greeting))))
  = render (settled (FetchResolves
                       (mkResponse 200 "OK" (BodyJson Server.greeting))))
  /\ render (settled (FetchResolves (mkResponse 200 "OK" (BodyJson Server.greeting))))
     = Some [MessageDiv (Some (JString "Hello World!"));
             PersonDiv 0 (JString "Harry");
             PersonDiv 1 (JString "Jack");
             PersonDiv 2 (JString "Mary")].
Proof.
  pose proof (revisions_agree
                (mkResponse 200 "OK" (BodyJson Server.greeting)) Server.greeting
                "Hello World!" [JString "Harry"; JString "Jack"; JString "Mary"]
                eq_refl eq_refl eq_refl eq_refl) as [_ [_ [Hr Hs]]].
  split; [exact Hr|]. apply Hs.
  repeat constructor; eexists; reflexivity.
Defined.

End ClientFacts.

(* ================================================================== *)
(** ** More on the allowlist and on the two revisions of the service *)

Module ServerExtras.
Import JsString Json Server ServerSpec AllowlistShape JsStringFacts ServerFacts.

Lemma occurs_app (c : ascii) (a b : string) :
  occurs c (a ++ b) = occurs c a || occurs c b.
Proof.
  induction a as [|x a IH]; simpl; [reflexivity|].
  now rewrite IH, orb_assoc.
Qed.

Lemma white_has_no_comma (l : string) :
  all_white l = true -> occurs ","%char l = false.
Proof.
  induction l as [|c l IH]; simpl; [reflexivity|].
  intros H. apply andb_true_iff in H as [Hc Hl]. rewrite (IH Hl).
  destruct (Ascii.eqb_spec c ","%char) as [->|_]; [discriminate | reflexivity].
Qed.

Lemma split_app (sep : ascii) (s t : string) :
  split sep (s ++ String sep t) = (split sep s ++ split sep t)%list.
Proof.
  induction s as [|c s IH]; simpl.
  - now rewrite Ascii.eqb_refl.
  - destruct (Ascii.eqb c sep); rewrite IH; [reflexivity|].
    destruct (split sep s) as [|p ps] eqn:E; [now apply split_not_nil in E|].
    reflexivity.
Qed.

Lemma trim_fixed (o : string) :
  is_white_opt (first_char o) = false ->
  is_white_opt (last_char o) = false ->
  trim o = o.
Proof.
  intros Hf Hl. apply trimmed_trim. exists "", "".
  rewrite app_empty_r. now repeat split.
Qed.

Lemma filter_truthy_fixed (l : list string) :
  Forall (fun o => o <> "") l -> filter truthy l = l.
Proof.
  induction 1 as [|o l Ho _ IH]; simpl; [reflexivity|].
  apply truthy_true in Ho. now rewrite Ho, IH.
Qed.

Lemma allowlist_held (clientUrlEnv : option string) (allowlist : list string) :
  allowedOrigins clientUrlEnv = Some allowlist ->
  exists s,
    clientUrlEnv = Some s /\ s <> "" /\ s <> "*"
    /\ allowlist = filter truthy (map trim (split ","%char s)).
Proof.
  unfold allowedOrigins. destruct clientUrlEnv as [s|]; [|discriminate].
  destruct (truthy s) eqn:Ht; [|discriminate].
  destruct (s =? "*") eqn:Hw; [discriminate|]. simpl.
  intros H. injection H as <-. exists s.
  apply truthy_true in Ht. apply String.eqb_neq in Hw. now repeat split.
Qed.

Lemma allowlist_compute (s : string) :
  s <> "" -> s <> "*" ->
  allowedOrigins (Some s) = Some (filter truthy (map trim (split ","%char s))).
Proof.
  intros Hne Hw. unfold allowedOrigins.
  apply truthy_true in Hne. apply String.eqb_neq in Hw. now rewrite Hne, Hw.
Qed.

Lemma entry_clean (clientUrlEnv : option string) (allowlist : list string) (o : string) :
  allowedOrigins clientUrlEnv = Some allowlist -> In o allowlist -> clean o.
Proof.
  intros H Hin. destruct (allowlist_held _ _ H) as [s [_ [_ [_ ->]]]].
  apply filter_In in Hin as [Hin Ht]. apply truthy_true in Ht.
  apply in_map_iff in Hin as [e [<- He]].
  pose proof (split_pieces_free ","%char s) as Hfree.
  rewrite Forall_forall in Hfree. specialize (Hfree e He). simpl in Hfree.
  destruct (trim_trimmed e) as [l [r [Heq [_ [_ [Hf Hl]]]]]].
  repeat split; try assumption.
  rewrite Heq, !occurs_app in Hfree.
  apply orb_false_iff in Hfree as [_ Hfree].
  now apply orb_false_iff in Hfree as [Hfree _].
Qed.

(** X1: every entry of the allowlist computed from CLIENT_URL is a
    non-empty string without a comma and without white space at either
    end. *)
Theorem allowlist_entries_clean
  (clientUrlEnv : option string) (allowlist : list string) (o : string) :
  allowedOrigins clientUrlEnv = Some allowlist ->
  In o allowlist ->
  o <> ""
  /\ occurs ","%char o = false
  /\ is_white_opt (first_char o) = false
  /\ is_white_opt (last_char o) = false.
Proof. intros H Hin. exact (entry_clean _ _ _ H Hin). Qed.

Lemma allowlist_entries_clean_witness :
  allowedOrigins (Some " https://a.example ,,https://b.example")
  = Some ["https://a.example"; "https://b.example"]
  /\ In "https://b.example" ["https://a.example"; "https://b.example"]
  /\ ("https://b.example" <> ""
      /\ occurs ","%char "https://b.example" = false
      /\ is_white_opt (first_char "https://b.example") = false
      /\ is_white_opt (last_char "https://b.example") = false).
Proof.
  split; [reflexivity|]. split; [right; left; reflexivity|].
  apply (allowlist_entries_clean
           (Some " https://a.example ,,https://b.example")
           ["https://a.example"; "https://b.example"]); [reflexivity|].
  right. left. reflexivity.
Defined.

(** X2: appending [,t] to a CLIENT_URL value that yields an allowlist
    appends the entries of [t] to that allowlist; every request allowed
    before is still allowed. *)
Theorem allowlist_append (s t : string) (allowlist : list string) :
  allowedOrigins (Some s) = Some allowlist ->
  allowedOrigins (Some (s ++ "," ++ t))
  = Some (allowlist ++ filter truthy (map trim (split ","%char t)))%list
  /\ forall requestOrigin,
       allows (Some s) requestOrigin = true ->
       allows (Some (s ++ "," ++ t)) requestOrigin = true.
Proof.
  intros H. destruct (allowlist_held _ _ H) as [s' [Hs [Hne [Hw Hl]]]].
  injection Hs as <-.
  assert (allowedOrigins (Some (s ++ "," ++ t))
          = Some (allowlist ++ filter truthy (map trim (split ","%char t)))%list)
    as Happ.
  { rewrite allowlist_compute.
    - change ("," ++ t) with (String ","%char t).
      now rewrite split_app, map_app, filter_app, Hl.
    - destruct s; [congruence | discriminate].
    - destruct s as [|c s]; [congruence|]. simpl. intros E. injection E as _ E.
      destruct s; discriminate. }
  split; [exact Happ|].
  intros requestOrigin Ha. apply allows_iff_policy in Ha. apply allows_iff_policy.
  unfold policy_allow, unconditional, listed in *. rewrite Happ. rewrite H in Ha.
  destruct Ha as [Ha|[Ha|[Ha|[o [Ho [l [Hl' Hin]]]]]]]; [discriminate| | |].
  - right. now left.
  - right. right. now left.
  - injection Hl' as <-. right. right. right. exists o. split; [exact Ho|].
    eexists. split; [reflexivity|]. apply in_or_app. now left.
Qed.

Lemma allowlist_append_witness :
  allowedOrigins (Some "https://a.example") = Some ["https://a.example"]
  /\ allowedOrigins (Some ("https://a.example" ++ "," ++ " https://b.example"))
     = Some (["https://a.example"]
             ++ filter truthy (map trim (split ","%char " https://b.example")))%list
  /\ forall requestOrigin,
       allows (Some "https://a.example") requestOrigin = true ->
       allows (Some ("https://a.example" ++ "," ++ " https://b.example"))
              requestOrigin = true.
Proof.
  split; [reflexivity|].
  apply (allowlist_append "https://a.example" " https://b.example"
           ["https://a.example"] eq_refl).
Defined.

(** X3: a wildcard with white space around it is not the wildcard: the
    allowlist is then the one entry ["*"], and every request that declares
    an origin other than ["*"] is rejected. *)
Theorem padded_wildcard_is_an_entry (s : string) :
  trim s = "*" -> s <> "*" ->
  allowedOrigins (Some s) = Some ["*"]
  /\ forall o, o <> "" -> o <> "*" -> allows (Some s) (Some o) = false.
Proof.
  intros Ht Hw.
  assert (s <> "") as Hne by (intros ->; discriminate).
  assert (occurs ","%char s = false) as Hfree.
  { destruct (trim_trimmed s) as [l [r [Heq [Hl [Hr _]]]]].
    rewrite Heq, Ht, !occurs_app.
    now rewrite (white_has_no_comma _ Hl), (white_has_no_comma _ Hr). }
  assert (allowedOrigins (Some s) = Some ["*"]) as Hlist.
  { rewrite (allowlist_compute s Hne Hw), (split_free _ _ Hfree).
    simpl. now rewrite Ht. }
  split; [exact Hlist|].
  intros o Ho Hstar. destruct (allows (Some s) (Some o)) eqn:E; [|reflexivity].
  apply allows_iff_policy in E. unfold policy_allow, unconditional, listed in E.
  rewrite Hlist in E.
  destruct E as [E|[E|[E|[o' [Ho' [l [Hl Hin]]]]]]]; try congruence.
  injection Ho' as <-. injection Hl as <-.
  destruct Hin as [Hin|[]]. congruence.
Qed.

Lemma padded_wildcard_is_an_entry_witness :
  (trim " *" = "*" /\ " *" <> "*")
  /\ allowedOrigins (Some " *") = Some ["*"]
  /\ forall o, o <> "" -> o <> "*" -> allows (Some " *") (Some o) = false.
Proof.
  split; [split; [reflexivity | discriminate]|].
  apply (padded_wildcard_is_an_entry " *"); [reflexivity | discriminate].
Defined.

Lemma join_truthy (sep : ascii) (o : string) (rest : list string) :
  o <> "" -> join sep (o :: rest) <> "".
Proof.
  intros Ho. destruct o as [|c o]; [congruence|].
  rewrite join_cons_char. discriminate.
Qed.

(** X4: an allowlist is in normal form: joined with commas and read as a
    CLIENT_URL value again, it yields itself, unless it is empty or the
    one entry ["*"] (whose joins are the empty value and the wildcard). *)
Theorem allowlist_normal_form (clientUrlEnv : option string) (allowlist : list string) :
  allowedOrigins clientUrlEnv = Some allowlist ->
  allowlist <> [] -> allowlist <> ["*"] ->
  allowedOrigins (Some (join ","%char allowlist)) = Some allowlist.
Proof.
  intros H Hnil Hstar.
  assert (Forall clean allowlist) as Hclean.
  { apply Forall_forall. intros o Hin. exact (entry_clean _ _ _ H Hin). }
  destruct allowlist as [|a rest]; [congruence|].
  pose proof (Forall_inv Hclean) as [Ha [Hac _]].
  rewrite allowlist_compute.
  - rewrite split_join.
    + assert (map trim (a :: rest) = a :: rest) as ->.
      { clear -Hclean. induction Hclean as [|o l [_ [_ [Hf Hl]]] _ IH]; simpl;
          [reflexivity|]. now rewrite (trim_fixed o Hf Hl), IH. }
      apply f_equal, filter_truthy_fixed.
      eapply Forall_impl; [|exact Hclean]. now intros o [Ho _].
    + discriminate.
    + eapply Forall_impl; [|exact Hclean]. now intros o [_ [Ho _]].
  - now apply join_truthy.
  - destruct rest as [|b rest].
    + simpl. congruence.
    + rewrite join_cons. intros E.
      destruct a as [|c a]; [congruence|]. simpl in E. injection E as _ E.
      destruct a; discriminate.
Qed.

Lemma allowlist_normal_form_witness :
  allowedOrigins (Some " https://a.example ,,https://b.example")
  = Some ["https://a.example"; "https://b.example"]
  /\ allowedOrigins (Some (join ","%char ["https://a.example"; "https://b.example"]))
     = Some ["https://a.example"; "https://b.example"].
Proof.
  split; [reflexivity|].
  apply (allowlist_normal_form (Some " https://a.example ,,https://b.example"));
    [reflexivity | discriminate | discriminate].
Defined.

(** X15: the origin check depends on the entries of the allowlist as a
    set only: two CLIENT_URL values whose allowlists hold the same entries,
    in whatever order and however often, allow exactly the same requests. *)
Theorem policy_depends_on_entry_set
  (s s' : string) (allowlist allowlist' : list string) (requestOrigin : option string) :
  allowedOrigins (Some s) = Some allowlist ->
  allowedOrigins (Some s') = Some allowlist' ->
  (forall o, In o allowlist <-> In o allowlist') ->
  allows (Some s) requestOrigin = allows (Some s') requestOrigin.
Proof.
  intros H H' Hsame.
  assert (policy_allow (Some s) requestOrigin <-> policy_allow (Some s') requestOrigin)
    as Hiff.
  { unfold policy_allow, unconditional, listed. rewrite H, H'. split;
      (intros [E|[E|[E|[o [Ho [l [Hl Hin]]]]]]];
       [discriminate | now right; left | now right; right; left |]);
      injection Hl as <-; right; right; right; exists o; (split; [exact Ho|]);
      eexists; (split; [reflexivity|]); now apply Hsame. }
  rewrite <- !allows_iff_policy in Hiff.
  destruct (allows (Some s) requestOrigin), (allows (Some s') requestOrigin);
    try reflexivity.
  - symmetry. now apply Hiff.
  - now apply Hiff.
Qed.

Lemma policy_depends_on_entry_set_witness :
  allowedOrigins (Some "https://a.example,https://b.example")
  = Some ["https://a.example"; "https://b.example"]
  /\ allowedOrigins (Some "https://b.example, https://a.example,https://b.example")
     = Some ["https://b.example"; "https://a.example"; "https://b.example"]
  /\ allows (Some "https://a.example,https://b.example") (Some "https://c.example")
     = allows (Some "https://b.example, https://a.example,https://b.example")
              (Some "https://c.example").
Proof.
  split; [reflexivity|]. split; [reflexivity|].
  apply (policy_depends_on_entry_set
           "https://a.example,https://b.example"
           "https://b.example, https://a.example,https://b.example"
           ["https://a.example"; "https://b.example"]
           ["https://b.example"; "https://a.example"; "https://b.example"]
           (Some "https://c.example") eq_refl eq_refl).
  intros o. simpl. tauto.
Defined.

(** *** The first revision *)

Lemma corsOrigin_truthy (clientUrlEnv : option string) :
  truthy (LegacyServer.corsOrigin clientUrlEnv) = true.
Proof.
  unfold LegacyServer.corsOrigin. destruct clientUrlEnv as [s|]; [|reflexivity].
  destruct (truthy s) eqn:E; [exact E | reflexivity].
Qed.

Lemma legacy_response (clientUrlEnv : option string) (req : Request) :
  LegacyServer.get_home clientUrlEnv req
  = Sent {| res_status := res_status (home_handler req);
            res_headers :=
              (configureOrigin (OriginString (LegacyServer.corsOrigin clientUrlEnv))
                 (req_origin req)
               ++ res_headers (home_handler req))%list;
            res_body := res_body (home_handler req) |}.
Proof.
  unfold LegacyServer.get_home. cbn [static_truthy].
  now rewrite corsOrigin_truthy.
Qed.

Lemma legacy_header
  (clientUrlEnv requestOrigin : option string) (rest : list (string * string)) :
  header "Access-Control-Allow-Origin"
    (configureOrigin (OriginString (LegacyServer.corsOrigin clientUrlEnv))
       requestOrigin
     ++ rest)%list
  = Some (LegacyServer.corsOrigin clientUrlEnv).
Proof.
  unfold configureOrigin. cbn [static_truthy].
  rewrite corsOrigin_truthy. cbn [negb orb].
  destruct (LegacyServer.corsOrigin clientUrlEnv =? "*") eqn:E.
  - apply String.eqb_eq in E. now rewrite E.
  - reflexivity.
Qed.

(** X5: the first revision of the service never rejects: every request
    to [GET /api/home], whatever its [Origin], is answered by the route
    handler (status 200 and the greeting document, or 304 and no body for a
    fresh conditional request), and the [Access-Control-Allow-Origin]
    header is the configured value (CLIENT_URL when it is set and not
    empty, [http://localhost:3000] otherwise), not the origin of the
    request. *)
Theorem legacy_always_sends (clientUrlEnv : option string) (req : Request) :
  exists r,
    LegacyServer.get_home clientUrlEnv req = Sent r
    /\ res_status r = res_status (home_handler req)
    /\ res_body r = res_body (home_handler req)
    /\ (req_fresh req = false -> res_status r = 200 /\ res_body r = document)
    /\ (req_fresh req = true -> res_status r = 304 /\ res_body r = "")
    /\ allow_origin_header r = Some (LegacyServer.corsOrigin clientUrlEnv)
    /\ (forall s, clientUrlEnv = Some s -> s <> "" ->
                  allow_origin_header r = Some s)
    /\ (clientUrlEnv = None \/ clientUrlEnv = Some "" ->
        allow_origin_header r = Some "http://localhost:3000").
Proof.
  eexists. split; [apply legacy_response|].
  unfold allow_origin_header. cbn [res_status res_body res_headers].
  rewrite legacy_header.
  split; [reflexivity|]. split; [reflexivity|].
  split; [intros Hf; now rewrite (handler_not_fresh _ Hf)|].
  split; [intros Hf; now rewrite (handler_fresh _ Hf)|].
  split; [reflexivity|]. split.
  - intros s -> Hs. unfold LegacyServer.corsOrigin.
    apply truthy_true in Hs. now rewrite Hs.
  - intros [->| ->]; reflexivity.
Qed.

(** X6: under a CLIENT_URL that names a single origin [s] (not empty,
    not the wildcard, no comma, no surrounding white space), the two
    revisions answer a request from [s] with the same response; a request
    from any other origin is rejected by the second revision, while the
    first still sends the handler's response (the document, unless the
    request is a fresh conditional one) with [s] as the allowed origin. *)
Theorem single_origin_revisions (s : string) (req : Request) :
  s <> "" -> s <> "*" -> occurs ","%char s = false -> trim s = s ->
  (req_origin req = Some s ->
   Server.get_home (Some s) req = LegacyServer.get_home (Some s) req)
  /\ (forall o, req_origin req = Some o -> o <> "" -> o <> s ->
        Server.get_home (Some s) req = Errored ("CORS blocked for origin: " ++ o)
        /\ exists r, LegacyServer.get_home (Some s) req = Sent r
                     /\ res_status r = res_status (home_handler req)
                     /\ res_body r = res_body (home_handler req)
                     /\ (req_fresh req = false -> res_body r = document)
                     /\ allow_origin_header r = Some s).
Proof.
  intros Hne Hw Hfree Ht.
  assert (allowedOrigins (Some s) = Some [s]) as Hlist.
  { rewrite (allowlist_compute s Hne Hw), (split_free _ _ Hfree). simpl.
    rewrite Ht. apply truthy_true in Hne. now rewrite Hne. }
  pose proof Hne as Htruthy. apply truthy_true in Htruthy.
  pose proof Hw as Hstar. apply String.eqb_neq in Hstar.
  split.
  - intros Ho.
    assert (allows (Some s) (req_origin req) = true) as Ha.
    { apply allows_iff_policy. right. right. right. exists s. split; [exact Ho|].
      exists [s]. split; [exact Hlist | now left]. }
    rewrite (allowed_is_sent _ _ Ha), legacy_response, Ho.
    unfold LegacyServer.corsOrigin, configureOrigin.
    rewrite Htruthy. cbn [static_truthy negb orb].
    rewrite Htruthy, Hstar. reflexivity.
  - intros o Ho Hoe Hos. split.
    + assert (allows (Some s) (req_origin req) = false) as Ha.
      { destruct (allows (Some s) (req_origin req)) eqn:E; [|reflexivity].
        apply allows_iff_policy in E.
        unfold policy_allow, unconditional, listed in E. rewrite Hlist, Ho in E.
        destruct E as [E|[E|[E|[o' [Ho' [l [Hl Hin]]]]]]]; try congruence.
        injection Ho' as <-. injection Hl as <-.
        destruct Hin as [Hin|[]]. congruence. }
      destruct (rejected_is_errored _ _ Ha) as [o' [Ho' [_ He]]].
      rewrite He. congruence.
    + eexists. split; [apply legacy_response|].
      split; [reflexivity|]. split; [reflexivity|]. cbn [res_body].
      split; [intros Hf; now rewrite (handler_not_fresh _ Hf)|].
      unfold allow_origin_header. cbn [res_headers]. rewrite legacy_header.
      unfold LegacyServer.corsOrigin. now rewrite Htruthy.
Qed.

Lemma single_origin_revisions_witness :
  ("https://a.example" <> "" /\ "https://a.example" <> "*"
   /\ occurs ","%char "https://a.example" = false
   /\ trim "https://a.example" = "https://a.example")
  /\ Server.get_home (Some "https://a.example") (mkRequest (Some "https://a.example") false)
     = LegacyServer.get_home (Some "https://a.example")
         (mkRequest (Some "https://a.example") false).
Proof.
  split; [repeat split; discriminate|].
  apply (single_origin_revisions "https://a.example"
           (mkRequest (Some "https://a.example") false));
    [discriminate | discriminate | reflexivity | reflexivity | reflexivity].
Defined.

End ServerExtras.

(* ================================================================== *)
(** ** More on the page: the runs of [load] and the two revisions *)

Module ClientExtras.
Import JsString Json Client Client.IndexPage ClientSpec Rendered.
Import JsStringFacts ClientFacts.

(** *** The runs of [load] *)

Lemma message_or_default_not_null (p : Property) : message_or_default p <> JNull.
Proof. destruct p as [| |v]; try discriminate. destruct v; discriminate. Qed.

(** The three ways a run of [load] can end. *)
Lemma after_shapes (o : FetchOutcome) :
  (exists m p, m <> JNull
               /\ load_after_await o = [SetMessage m; SetPeople p; SetLoading false])
  \/ (exists text, load_after_await o = [SetError (Some text); SetLoading false])
  \/ load_after_await o = [SetLoading false].
Proof.
  assert (forall e, (exists text, (catch_block e ++ finally_block)%list
                                  = [SetError (Some text); SetLoading false])
                    \/ (catch_block e ++ finally_block)%list = [SetLoading false])
    as Hcatch.
  { intros e. unfold catch_block. destruct (is_abort e); [now right|].
    left. now exists (describe e). }
  destruct o as [r|e].
  - destruct (ok r) eqn:Hok.
    + destruct (body r) as [data|e] eqn:Hb.
      * destruct data;
          try (left; eexists; eexists;
               split; [apply message_or_default_not_null|];
               apply (after_data r _ Hok Hb); discriminate).
        right. left. eexists. apply (after_null r Hok Hb).
      * rewrite (after_body_rejects r e Hok Hb).
        destruct (Hcatch e) as [H|H]; [now right; left | now right; right].
    + right. left. eexists. apply (after_not_ok r Hok).
  - rewrite after_thrown.
    destruct (Hcatch e) as [H|H]; [now right; left | now right; right].
Qed.

(** X7: a run of [load] first clears the error and raises [loading], and
    once the fetch has settled it does exactly one of three things: it
    writes a message (never null) and the people, or it writes an error
    text, or it writes neither; in each case the last write lowers
    [loading], and the error is never cleared after the fetch. *)
Theorem load_settles_one_way (o : FetchOutcome) :
  (exists m p, m <> JNull
     /\ load o = [SetError None; SetLoading true;
                  SetMessage m; SetPeople p; SetLoading false])
  \/ (exists text,
        load o = [SetError None; SetLoading true;
                  SetError (Some text); SetLoading false])
  \/ load o = [SetError None; SetLoading true; SetLoading false].
Proof.
  unfold load, load_before_await.
  destruct (after_shapes o) as [[m [p [Hm ->]]]|[[text ->]| ->]].
  - left. now exists m, p.
  - right. left. now exists text.
  - now right; right.
Qed.







Lemma step_message_not_null (i : Instance) (e : Event) :
  message (cells i) <> JNull -> message (cells (step i e)) <> JNull.
Proof.
  destruct i as [c p f a l n]. simpl. intros H.
  destruct e as [| |o|]; simpl.
  - destruct p; [exact H | exact H |]. destruct f; exact H.
  - destruct p; exact H.
  - destruct f; [|exact H].
    destruct p; [exact H| |exact H]. cbn [cells].
    match goal with
    | |- message (apply (load_after_await ?d) _) <> JNull =>
        destruct (after_shapes d) as [[m [q [Hm ->]]]|[[text ->]| ->]];
        simpl; assumption
    end.
  - destruct n; [exact H|]. destruct p; exact H.
Qed.

(** X9: the message cell of [IndexPage] never holds null: a body whose
    [message] is null or missing leaves the empty string there. *)
Theorem message_never_null (events : list Event) :
  message (cells (run events)) <> JNull.
Proof.
  induction events as [|e events IH] using rev_ind; [discriminate|].
  rewrite run_app. simpl. now apply step_message_not_null.
Qed.

(** X10: a cancellation is silent on a mounted page as well: when the
    fetch, or the reading of the body of a success response, rejects with
    an AbortError, [load] makes the single write [setLoading(false)]; no
    error is set and the page shows the message line with the initial,
    empty data. *)
Theorem cancellation_is_silent (o : FetchOutcome) (text : string) :
  o = FetchRejects (ThrownDOMException "AbortError" text)
  \/ (exists r, o = FetchResolves r /\ ok r = true
                /\ body r = BodyRejects (ThrownDOMException "AbortError" text)) ->
  load_after_await o = [SetLoading false]
  /\ error (settled o) = None
  /\ shows (settled o) (Loaded (JString "") []).
Proof.
  intros H.
  assert (load_after_await o = [SetLoading false]) as Hw.
  { destruct H as [->|[r [-> [Hok Hb]]]]; [reflexivity|].
    now rewrite (after_body_rejects r _ Hok Hb). }
  rewrite settled_unfold, Hw. now repeat split.
Qed.

Lemma cancellation_is_silent_witness :
  load_after_await (FetchRejects (ThrownDOMException "AbortError" "signal is aborted"))
  = [SetLoading false]
  /\ error (settled (FetchRejects (ThrownDOMException "AbortError" "signal is aborted")))
     = None
  /\ shows (settled (FetchRejects (ThrownDOMException "AbortError" "signal is aborted")))
           (Loaded (JString "") []).
Proof.
  apply (cancellation_is_silent _ "signal is aborted"). left. reflexivity.
Defined.

(** *** Person items *)

Lemma keys_person_divs_from (index : nat) (l : list JSON) :
  keys (person_divs_from index l) = seq index (length l).
Proof.
  revert index. induction l as [|p l IH]; intros index; simpl; [reflexivity|].
  now rewrite IH.
Qed.

Lemma persons_person_divs_from (index : nat) (l : list JSON) :
  persons (person_divs_from index l) = l.
Proof.
  revert index. induction l as [|p l IH]; intros index; simpl; [reflexivity|].
  now rewrite IH.
Qed.

(** X11: in both revisions the keyed elements a rendering is made of
    are the person items alone: their keys are 0, 1, ..., n-1 in this
    order, hence pairwise distinct, and their contents are the people of
    the state, in order; this holds of what [IndexPage] returns in every
    state, which is what is rendered whenever the page renders, and in
    every state of [index] that renders at all. *)
Theorem person_keys_positional :
  (forall s : State,
     keys (elements s) = seq 0 (length (people s))
     /\ NoDup (keys (elements s))
     /\ persons (elements s) = people s
     /\ forall rendered, render s = Some rendered -> rendered = elements s)
  /\ (forall (s : Index.State) (rendered : list Element),
        Index.render s = Some rendered ->
        exists l, Index.people s = Some (JArray l)
                  /\ keys rendered = seq 0 (length l)
                  /\ NoDup (keys rendered)
                  /\ persons rendered = l).
Proof.
  split.
  - intros s.
    assert (keys (elements s) = seq 0 (length (people s))
            /\ persons (elements s) = people s) as [Hk Hp].
    { unfold elements, person_divs.
      destruct (loading s); destruct (error s) as [e|]; simpl;
        try destruct (truthy e); simpl;
        now rewrite keys_person_divs_from, persons_person_divs_from. }
    repeat split; try assumption.
    + rewrite Hk. apply seq_NoDup.
    + intros rendered. unfold render, commit.
      destruct (forallb element_ok (elements s)); congruence.
  - intros s rendered. unfold Index.render, commit.
    destruct (Index.people s) as [v|]; [|discriminate].
    destruct v; try discriminate.
    destruct (forallb element_ok _); [|discriminate].
    intros H. injection H as <-.
    exists items. unfold person_divs. simpl.
    rewrite keys_person_divs_from, persons_person_divs_from.
    repeat split. apply seq_NoDup.
Qed.

(** *** Where the two revisions part *)

(** X12: on a response with a non-success status whose body is a JSON
    document with a string [message] and an array of strings [people], the
    first revision does not look at the status and renders the document,
    while the second renders the error line alone. *)
Theorem revisions_differ_on_failure_status
  (r : Response) (data : JSON) (m : string) (l : list JSON) :
  ok r = false ->
  body r = BodyJson data ->
  get data "message" = PropValue (JString m) ->
  get data "people" = PropValue (JArray l) ->
  Forall text l ->
  Index.render (Index.settled (FetchResolves r))
  = Some (MessageDiv (Some (JString m)) :: person_divs l)
  /\ render (settled (FetchResolves r))
     = Some [ErrorDiv ("Request failed: " ++ decimal (status r)
                       ++ " " ++ statusText r)].
Proof.
  intros Hok Hb Hm Hp Ht. split.
  - unfold Index.settled, Index.effect. rewrite Hb, Hm, Hp.
    unfold Index.render, commit, person_divs. cbn.
    now rewrite person_divs_ok, (text_renderable l Ht).
  - now rewrite settled_unfold, (after_not_ok r Hok).
Qed.

Lemma revisions_differ_on_failure_status_witness :
  Index.render
    (Index.settled
       (FetchResolves
          (mkResponse 500 "Internal Server Error" (BodyJson Server.greeting))))
  = Some (MessageDiv (Some (JString "Hello World!"))
          :: person_divs [JString "Harry"; JString "Jack"; JString "Mary"])
  /\ render
       (settled
          (FetchResolves
             (mkResponse 500 "Internal Server Error" (BodyJson Server.greeting))))
     = Some [ErrorDiv "Request failed: 500 Internal Server Error"].
Proof.
  apply (revisions_differ_on_failure_status
           (mkResponse 500 "Internal Server Error" (BodyJson Server.greeting))
           Server.greeting "Hello World!"
           [JString "Harry"; JString "Jack"; JString "Mary"]);
    try reflexivity.
  repeat constructor; eexists; reflexivity.
Defined.

(** X13: the first revision fails silently: when the fetch rejects, when
    the body cannot be read, or when the body is the JSON value null, its
    cells keep their initial values and the page stays the empty message
    line, with no person item. *)
Theorem legacy_failure_is_silent (o : FetchOutcome) :
  (exists e, o = FetchRejects e)
  \/ (exists r e, o = FetchResolves r /\ body r = BodyRejects e)
  \/ (exists r, o = FetchResolves r /\ body r = BodyJson JNull) ->
  Index.settled o = Index.initial
  /\ Index.render (Index.settled o) = Some [MessageDiv (Some (JString ""))].
Proof.
  intros H.
  assert (Index.effect o = []) as He.
  { destruct H as [[e ->]|[[r [e [-> Hb]]]|[r [-> Hb]]]]; simpl;
      [reflexivity | now rewrite Hb | now rewrite Hb]. }
  unfold Index.settled. rewrite He. now split.
Qed.

Lemma legacy_failure_is_silent_witness :
  Index.settled (FetchRejects (ThrownError "Failed to fetch")) = Index.initial
  /\ Index.render (Index.settled (FetchRejects (ThrownError "Failed to fetch")))
     = Some [MessageDiv (Some (JString ""))].
Proof.
  apply (legacy_failure_is_silent (FetchRejects (ThrownError "Failed to fetch"))).
  left. now exists (ThrownError "Failed to fetch").
Defined.

(** X14: when the body is a JSON value other than null whose [people] is
    missing or is not an array, the rendering of the first revision throws
    ([people.map] is not there), whatever the status; the second revision,
    on a success status and with a message that is a string, null or
    absent, renders the message line and no person item. *)
Theorem legacy_render_needs_people_array (r : Response) (data : JSON) :
  body r = BodyJson data ->
  data <> JNull ->
  (forall l, get data "people" <> PropValue (JArray l)) ->
  Index.render (Index.settled (FetchResolves r)) = None
  /\ (ok r = true ->
      (forall v, get data "message" = PropValue v -> v = JNull \/ text v) ->
      render (settled (FetchResolves r))
      = Some [MessageDiv (Some (message_or_default (get data "message")))]).
Proof.
  intros Hb Hd Hp. split.
  - unfold Index.settled, Index.effect. rewrite Hb.
    assert (get data "message" <> PropThrows) as Hm.
    { destruct data; simpl; try discriminate; [congruence|].
      destruct (member "message" members); discriminate. }
    destruct (get data "message") as [| |v] eqn:Em; [congruence| |];
      unfold Index.render; simpl;
      (destruct (get data "people") as [| |w]; simpl; try reflexivity;
       destruct w; try reflexivity; now specialize (Hp items)).
  - intros Hok Hmsg. rewrite settled_unfold, (after_data r data Hok Hb Hd).
    assert (people_or_default (get data "people") = []) as Hnone.
    { destruct (get data "people") as [| |w]; try reflexivity.
      destruct w; try reflexivity. now specialize (Hp items). }
    assert (renderable (message_or_default (get data "message")) = true) as Hr.
    { destruct (get data "message") as [| |v]; try reflexivity.
      destruct (Hmsg v eq_refl) as [->|[t ->]]; reflexivity. }
    unfold render, commit, elements. cbn. now rewrite Hnone, Hr.
Qed.

Lemma legacy_render_needs_people_array_witness :
  Index.render
    (Index.settled
       (FetchResolves
          (mkResponse 200 "OK" (BodyJson (JObject [("message", JString "hi")])))))
  = None
  /\ render
       (settled
          (FetchResolves
             (mkResponse 200 "OK" (BodyJson (JObject [("message", JString "hi")])))))
     = Some [MessageDiv (Some (JString "hi"))].
Proof.
  pose proof (legacy_render_needs_people_array
                (mkResponse 200 "OK" (BodyJson (JObject [("message", JString "hi")])))
                (JObject [("message", JString "hi")]) eq_refl) as H.
  destruct H as [Hl Hr]; [discriminate | intros l; discriminate |].
  split; [exact Hl|]. apply Hr; [reflexivity|].
  intros v E. injection E as <-. right. now exists "hi".
Defined.

End ClientExtras.
